(** * WAMP-over-RawSocket transport (autobahn/twisted/rawsocket.py)

    A shallow embedding of [WampRawSocketProtocol] and [WampRawSocketFactory].
    Python methods become computations in a small monad that threads the
    protocol instance, collects the calls made on the collaborators (log,
    session, transport) in a trace, and may end in a raised exception.

    What the model takes for granted: exceptions are instances of
    [Exception]; formatting a value for a log line always succeeds; the
    serializer is a function of its argument; a session handler acts on the
    instance only through the transport interface it was given. *)

From Stdlib Require Import String Ascii.
From Stdlib Require Import List Bool Arith NArith Lia.
From Stdlib Require Import Strings.Byte.
Import ListNotations.
Local Open Scope string_scope.
Local Open Scope list_scope.
Local Open Scope nat_scope.

Set Implicit Arguments.

(** ** Python exceptions and results *)

(** Instances of [Exception]: what [except Exception] matches.  The classes
    the module raises or names are kept apart; the rest is [OtherException]. *)
Inductive exn : Type :=
| ProtocolError (what : string)
| SerializationError (what : string)
| TransportLost
| AttributeError (what : string)
| TypeError (what : string)
| AssertionError
| StringTooLongError
| OtherException (what : string).

(** ["{0}".format(e)] for an exception. *)
Definition str_exn (e : exn) : string :=
  match e with
  | ProtocolError w | SerializationError w | AttributeError w
  | TypeError w | OtherException w => w
  | TransportLost | AssertionError | StringTooLongError => ""
  end.

Inductive result (A : Type) : Type :=
| Ok (a : A)
| Raise (e : exn).
Arguments Ok {A} a.
Arguments Raise {A} e.

(** An instance attribute: Python raises [AttributeError] when it is read
    before any assignment. *)
Inductive attr (A : Type) : Type :=
| Unset
| Value (a : A).
Arguments Unset {A}.
Arguments Value {A} a.

(** ** twisted.internet.error: the value wrapped by a connection-lost reason *)

(** The value is known by what [isinstance] can tell of it.  [ConnectionDone]
    is an instance of that class or of a class derived from it;
    [ConnectionLost] and [ConnectionAborted] are instances of these classes
    of Twisted, neither of which derives from [ConnectionDone];
    [OtherReason cls] is an instance of any other class [cls] that does not
    derive from [ConnectionDone]. *)
Inductive reason_value : Type :=
| ConnectionDone
| ConnectionLost
| ConnectionAborted
| OtherReason (cls : string).

(** [isinstance(reason.value, ConnectionDone)] *)
Definition isinstance_ConnectionDone (r : reason_value) : bool :=
  match r with
  | ConnectionDone => true
  | _ => false
  end.

Definition str_reason (r : reason_value) : string :=
  match r with
  | ConnectionDone => "Connection was closed cleanly."
  | ConnectionLost => "Connection to the other side was lost in a non-clean fashion."
  | ConnectionAborted => "Connection was aborted locally, using abortConnection."
  | OtherReason c => c
  end.

(** ** binascii.hexlify *)

Definition hex_digit (n : N) : ascii :=
  match n with
  | 0 => "0" | 1 => "1" | 2 => "2" | 3 => "3" | 4 => "4" | 5 => "5"
  | 6 => "6" | 7 => "7" | 8 => "8" | 9 => "9" | 10 => "a" | 11 => "b"
  | 12 => "c" | 13 => "d" | 14 => "e" | _ => "f"
  end%N%char.

Fixpoint hexlify (bs : list byte) : string :=
  match bs with
  | [] => EmptyString
  | b :: bs' =>
      let n := Byte.to_N b in
      String (hex_digit (n / 16)) (String (hex_digit (n mod 16)) (hexlify bs'))
  end.

(** ** Frame Codec *)

Module Framing.

(** The class inherits its framing from Twisted's [Int32StringReceiver],
    which is not among the sources.  The spec has it as the Frame Codec: a
    frame is a 4-byte big-endian unsigned length N followed by N payload
    bytes; [feed] returns the complete payloads and retains the incomplete
    trailing bytes; there is no cap on N beyond the width of the field. *)

(** Modelled from the spec: one byte of the big-endian length field. *)
Definition byte_of_N (n : N) : byte :=
  match Byte.of_N (n mod 256) with
  | Some b => b
  | None => x00
  end.

(** Modelled from the spec: the 4-byte big-endian unsigned length field. *)
Definition pack_be32 (n : N) : list byte :=
  [byte_of_N (n / 16777216); byte_of_N (n / 65536); byte_of_N (n / 256); byte_of_N n].

(** Modelled from the spec: the length a 4-byte field stands for. *)
Definition unpack_be32 (b3 b2 b1 b0 : byte) : N :=
  (Byte.to_N b3 * 16777216 + Byte.to_N b2 * 65536 + Byte.to_N b1 * 256 + Byte.to_N b0)%N.

(** Modelled from the spec: what the integer width allows, the largest
    payload length the 4-byte field can carry, plus one. *)
Definition length_limit : N := 4294967296.

(** Modelled from the spec: [encode] prepends the length prefix. *)
Definition encode (payload : list byte) : list byte :=
  pack_be32 (N.of_nat (length payload)) ++ payload.

(** Modelled from the spec: a payload whose length the field can carry. *)
Definition fits (payload : list byte) : Prop :=
  (N.of_nat (length payload) < length_limit)%N.

(** Modelled from the spec: the complete payloads at the front of [buf], in
    input byte order, and the incomplete trailing bytes.  A frame is taken
    only when all of its N payload bytes are there.  Every extracted frame shortens the buffer by at least four bytes, so
    [length buf] steps always suffice ([extract_fuel] below). *)
Fixpoint extract (fuel : nat) (buf : list byte) : list (list byte) * list byte :=
  match fuel with
  | O => ([], buf)
  | S fuel' =>
      match buf with
      | b3 :: b2 :: b1 :: b0 :: rest =>
          let n := N.to_nat (unpack_be32 b3 b2 b1 b0) in
          if n <=? length rest
          then let (ps, r) := extract fuel' (skipn n rest) in (firstn n rest :: ps, r)
          else ([], buf)
      | _ => ([], buf)
      end
  end.

(** Modelled from the spec: [feed], on the bytes retained so far and the
    bytes of one read. *)
Definition feed (buffered data : list byte) : list (list byte) * list byte :=
  extract (length (buffered ++ data)) (buffered ++ data).

(** Modelled from the spec: the reads of a connection fed one after the
    other, each starting from what the previous one retained. *)
Fixpoint feed_all (buffered : list byte) (reads : list (list byte))
  : list (list byte) * list byte :=
  match reads with
  | [] => ([], buffered)
  | data :: reads' =>
      let (ps, r) := feed buffered data in
      let (ps', r') := feed_all r reads' in
      (ps ++ ps', r')
  end.

End Framing.

(** ** The collaborators *)

Section RawSocket.

(** WAMP message values, the session object's own state and peer addresses
    are opaque. *)
Context {Msg : Type} {Session : Type} {Peer : Type}.

(** ["{0}".format(msg)] and [autobahn.twisted.util.peer2str], both total. *)
Class Formatting : Type := {
  str_msg : Msg -> string;
  peer2str : Peer -> string
}.
Context {fmt : Formatting}.

(** [autobahn.wamp.interfaces.ISerializer].  [unserialize] is consumed by a
    [for] loop: the messages the iteration yields, then the exception that
    ends it early, if any (a serializer that raises before returning its
    list yields none). *)
Record ISerializer : Type := {
  serialize : Msg -> result (list byte * bool);
  unserialize : list byte -> list Msg * option exn
}.

(** [autobahn.wamp.interfaces.ITransportHandler]: each handler updates the
    session object and returns ([None]) or raises ([Some e]).  What a handler
    does with the transport it was given in [onOpen] goes through the
    methods below and never assigns [_session]. *)
Class ITransportHandler : Type := {
  onOpen : Session -> Session * option exn;
  onMessage : Msg -> Session -> Session * option exn;
  onClose : bool -> Session -> Session * option exn
}.
Context {handler : ITransportHandler}.

(** What a caller may pass as [factory]: any object, callable or not.  A
    callable needs [nargs] positional arguments. *)
Inductive pyobject : Type :=
| NotCallable
| Callable (nargs : nat) (body : result Session).

Definition callable (o : pyobject) : bool :=
  match o with
  | NotCallable => false
  | Callable _ _ => true
  end.

(** [o()] *)
Definition call0 (o : pyobject) : result Session :=
  match o with
  | NotCallable => Raise (TypeError "object is not callable")
  | Callable 0 body => body
  | Callable (S _) _ => Raise (TypeError "missing required positional argument")
  end.

(** The Twisted transport behind the protocol.  Process transports have
    neither [getPeer] nor [abortConnection]. *)
Record Transport : Type := {
  getPeer : option Peer;
  has_abortConnection : bool
}.

(** ** WampRawSocketFactory *)

Record WampRawSocketFactory : Type := {
  _factory : pyobject;
  _serializer : ISerializer;
  debug : bool
}.

Definition WampRawSocketFactory__init__
    (factory : pyobject) (serializer : ISerializer) (debug : bool)
  : result WampRawSocketFactory :=
  if callable factory
  then Ok {| _factory := factory; _serializer := serializer; debug := debug |}
  else Raise AssertionError.

(** ** WampRawSocketProtocol: the instance *)

(** [factory] and [transport] are set by Twisted before [connectionMade];
    [peer] and [_session] are assigned by the methods below and by nothing
    else; [_unprocessed] is the inherited receiver's buffer. *)
Record WampRawSocketProtocol : Type := {
  factory : WampRawSocketFactory;
  transport : Transport;
  peer : attr string;
  _session : attr (option Session);
  _unprocessed : list byte
}.

Definition set_peer (v : string) (p : WampRawSocketProtocol) :=
  {| factory := factory p; transport := transport p; peer := Value v;
     _session := _session p; _unprocessed := _unprocessed p |}.

Definition set_session (v : option Session) (p : WampRawSocketProtocol) :=
  {| factory := factory p; transport := transport p; peer := peer p;
     _session := Value v; _unprocessed := _unprocessed p |}.

Definition set_unprocessed (v : list byte) (p : WampRawSocketProtocol) :=
  {| factory := factory p; transport := transport p; peer := peer p;
     _session := _session p; _unprocessed := v |}.

(** ** Calls on the collaborators, as they appear in a run *)

Inductive event : Type :=
| LogMsg (line : string)
| OnOpen
| OnMessage (m : Msg)
| OnClose (wasClean : bool)
| TransportWrite (data : list byte)
| LoseConnection
| AbortConnection.

(** ** The method monad *)

(** A method body: from the instance to how it ends (a value or a raised
    exception), the instance afterwards, and the calls it made.  An exception
    undoes nothing: state and trace up to the raise are kept. *)
Definition M (A : Type) : Type :=
  WampRawSocketProtocol -> result A * WampRawSocketProtocol * list event.

Definition ret {A} (a : A) : M A := fun p => (Ok a, p, []).
Definition raise {A} (e : exn) : M A := fun p => (Raise e, p, []).

Definition bind {A B} (m : M A) (k : A -> M B) : M B :=
  fun p =>
    match m p with
    | (Ok a, p1, t1) =>
        match k a p1 with
        | (r, p2, t2) => (r, p2, t1 ++ t2)
        end
    | (Raise e, p1, t1) => (Raise e, p1, t1)
    end.

(** [try: m / except Exception as e: h e / else: k a] *)
Definition try_except_else {A B} (m : M A) (h : exn -> M B) (k : A -> M B) : M B :=
  fun p =>
    match m p with
    | (Ok a, p1, t1) =>
        match k a p1 with
        | (r, p2, t2) => (r, p2, t1 ++ t2)
        end
    | (Raise e, p1, t1) =>
        match h e p1 with
        | (r, p2, t2) => (r, p2, t1 ++ t2)
        end
    end.

Definition try_except {A} (m : M A) (h : exn -> M A) : M A :=
  try_except_else m h ret.

Definition emit (e : event) : M unit := fun p => (Ok tt, p, [e]).
Definition get : M WampRawSocketProtocol := fun p => (Ok p, p, []).
Definition modify (f : WampRawSocketProtocol -> WampRawSocketProtocol) : M unit :=
  fun p => (Ok tt, f p, []).
Definition lift {A} (r : result A) : M A := fun p => (r, p, []).

Notation "x <- m ;; k" := (bind m (fun x => k))
  (at level 61, m at next level, right associativity).
Notation "m ;; k" := (bind m (fun _ => k))
  (at level 61, right associativity).

(** [log.msg(line)] and [if self.factory.debug: ...] *)
Definition log_msg (line : string) : M unit := emit (LogMsg line).

Definition when_debug (m : M unit) : M unit :=
  fun p => if debug (factory p) then m p else ret tt p.

(** [for msg in it: body msg], where the iteration yields [fst it] and then
    ends normally or with the exception [snd it]. *)
Fixpoint for_each {A} (xs : list A) (body : A -> M unit) : M unit :=
  match xs with
  | [] => ret tt
  | x :: xs' => body x ;; for_each xs' body
  end.

Definition iterate {A} (it : list A * option exn) (body : A -> M unit) : M unit :=
  for_each (fst it) body ;;
  match snd it with
  | None => ret tt
  | Some e => raise e
  end.

(** [self._session.<handler>(...)]: the attribute is read, then the method is
    looked up on its value ([None] has none), then the handler runs. *)
Definition session_call (h : Session -> Session * option exn) (ev : event) : M unit :=
  fun p =>
    match _session p with
    | Unset => (Raise (AttributeError "_session"), p, [])
    | Value None => (Raise (AttributeError "NoneType"), p, [])
    | Value (Some s) =>
        let (s', r) := h s in
        (match r with None => Ok tt | Some e => Raise e end,
         set_session (Some s') p, [ev])
    end.

(** ** WampRawSocketProtocol: the methods *)

Definition isOpen : M bool :=
  fun p =>
    match _session p with
    | Unset => (Raise (AttributeError "_session"), p, [])
    | Value None => (Ok false, p, [])
    | Value (Some _) => (Ok true, p, [])
    end.

Definition close : M unit :=
  b <- isOpen ;;
  if b then emit LoseConnection else raise TransportLost.

Definition abort : M unit :=
  b <- isOpen ;;
  if b then
    p <- get ;;
    if has_abortConnection (transport p)
    then emit AbortConnection
    else emit LoseConnection
  else raise TransportLost.

Definition connectionMade : M unit :=
  when_debug (log_msg "WAMP-over-RawSocket connection made") ;;
  p <- get ;;
  match getPeer (transport p) with
  | None => modify (set_peer "?")
  | Some a => modify (set_peer (peer2str a))
  end ;;
  try_except
    (s <- lift (call0 (_factory (factory p))) ;;
     modify (set_session (Some s)) ;;
     session_call onOpen OnOpen)
    (fun e =>
       when_debug (log_msg ("ApplicationSession constructor / onOpen raised ("
                            ++ str_exn e ++ ")")%string) ;;
       abort).

Definition connectionLost (reason : reason_value) : M unit :=
  when_debug (log_msg ("WAMP-over-RawSocket connection lost: reason = '"
                       ++ str_reason reason ++ "'")%string) ;;
  try_except
    (let wasClean := isinstance_ConnectionDone reason in
     session_call (onClose wasClean) (OnClose wasClean))
    (fun e =>
       when_debug (log_msg ("ApplicationSession.onClose raised ("
                            ++ str_exn e ++ ")")%string)) ;;
  modify (set_session None).

(** [connectionLost] up to, and not including, its last statement
    [self._session = None]: what the method has done when the session is
    about to be released. *)
Definition connectionLost_notify (reason : reason_value) : M unit :=
  when_debug (log_msg ("WAMP-over-RawSocket connection lost: reason = '"
                       ++ str_reason reason ++ "'")%string) ;;
  try_except
    (let wasClean := isinstance_ConnectionDone reason in
     session_call (onClose wasClean) (OnClose wasClean))
    (fun e =>
       when_debug (log_msg ("ApplicationSession.onClose raised ("
                            ++ str_exn e ++ ")")%string)).

(** The body of the loop in [stringReceived]. *)
Definition forward (msg : Msg) : M unit :=
  when_debug (log_msg ("RX WAMP message: " ++ str_msg msg)%string) ;;
  session_call (onMessage msg) (OnMessage msg).

Definition stringReceived (payload : list byte) : M unit :=
  when_debug (log_msg ("RX octets: " ++ hexlify payload)%string) ;;
  try_except
    (p <- get ;;
     iterate (unserialize (_serializer (factory p)) payload) forward)
    (fun e =>
       match e with
       | ProtocolError _ =>
           when_debug (log_msg ("WAMP Protocol Error (" ++ str_exn e
                                ++ ") - aborting connection")%string) ;;
           abort
       | _ =>
           when_debug (log_msg ("WAMP Internal Error (" ++ str_exn e
                                ++ ") - aborting connection")%string) ;;
           abort
       end).

(** Modelled from the spec: the inherited [sendString], the Frame Codec's
    [encode] written to the connection; a payload the length field cannot
    describe is refused. *)
Definition sendString (payload : list byte) : M unit :=
  if (N.of_nat (length payload) <? Framing.length_limit)%N
  then emit (TransportWrite (Framing.encode payload))
  else raise StringTooLongError.

Definition send (msg : Msg) : M unit :=
  b <- isOpen ;;
  if b then
    when_debug (log_msg ("TX WAMP message: " ++ str_msg msg)%string) ;;
    p <- get ;;
    try_except_else
      (lift (serialize (_serializer (factory p)) msg))
      (fun e =>
         raise (SerializationError
                  ("Unable to serialize WAMP application payload ("
                   ++ str_exn e ++ ")")%string))
      (fun r =>
         sendString (fst r) ;;
         when_debug (log_msg ("TX octets: " ++ hexlify (fst r))%string))
  else raise TransportLost.

(** Modelled from the spec: the inherited [dataReceived], the Frame Codec's
    [feed] followed by one [stringReceived] per complete payload, in order. *)
Definition dataReceived (data : list byte) : M unit :=
  p <- get ;;
  let (payloads, rest) := Framing.feed (_unprocessed p) data in
  modify (set_unprocessed rest) ;;
  for_each payloads stringReceived.

(** ** Runs of a protocol instance *)

(** What the peer, the application and the tests can see of a trace: every
    call on the session and on the transport, but not the log lines. *)
Definition is_log (e : event) : bool :=
  match e with
  | LogMsg _ => true
  | _ => false
  end.

Definition observable (t : list event) : list event :=
  filter (fun e => negb (is_log e)) t.

(** The transport call [abort] makes. *)
Definition abort_event (p : WampRawSocketProtocol) : event :=
  if has_abortConnection (transport p) then AbortConnection else LoseConnection.

(** The calls the reactor and the application make on an instance. *)
Inductive call : Type :=
| CallConnectionMade
| CallConnectionLost (reason : reason_value)
| CallDataReceived (data : list byte)
| CallStringReceived (payload : list byte)
| CallSend (msg : Msg)
| CallIsOpen
| CallClose
| CallAbort.

(** How a call ends for its caller. *)
Inductive answer : Type :=
| Returned
| ReturnedBool (b : bool)
| Raised (e : exn).

Definition answer_unit (r : result unit) : answer :=
  match r with
  | Ok _ => Returned
  | Raise e => Raised e
  end.

Definition answer_bool (r : result bool) : answer :=
  match r with
  | Ok b => ReturnedBool b
  | Raise e => Raised e
  end.

Definition perform (c : call) (p : WampRawSocketProtocol)
  : answer * WampRawSocketProtocol * list event :=
  let unit_call (m : M unit) :=
    match m p with (r, p', t) => (answer_unit r, p', t) end in
  match c with
  | CallConnectionMade => unit_call connectionMade
  | CallConnectionLost reason => unit_call (connectionLost reason)
  | CallDataReceived data => unit_call (dataReceived data)
  | CallStringReceived payload => unit_call (stringReceived payload)
  | CallSend msg => unit_call (send msg)
  | CallIsOpen => match isOpen p with (r, p', t) => (answer_bool r, p', t) end
  | CallClose => unit_call close
  | CallAbort => unit_call abort
  end.

(** A sequence of calls, each on the instance the previous one left. *)
Fixpoint run (cs : list call) (p : WampRawSocketProtocol)
  : list answer * WampRawSocketProtocol * list event :=
  match cs with
  | [] => ([], p, [])
  | c :: cs' =>
      match perform c p with
      | (a, p1, t1) =>
          match run cs' p1 with
          | (ans, p2, t2) => (a :: ans, p2, t1 ++ t2)
          end
      end
  end.

(** The session's side of one frame: the handler is called on the messages
    in order until one raises.  Returns the session afterwards, the messages
    [onMessage] was called with, and the exception that stopped it. *)
Fixpoint deliver (s : Session) (msgs : list Msg) : Session * list Msg * option exn :=
  match msgs with
  | [] => (s, [], None)
  | m :: ms =>
      match onMessage m s with
      | (s', Some e) => (s', [m], Some e)
      | (s', None) =>
          match deliver s' ms with
          | (s'', fw, r) => (s'', m :: fw, r)
          end
      end
  end.

(** The messages a sequence of payloads decodes to. *)
Definition decoded (ser : ISerializer) (payloads : list (list byte)) : list Msg :=
  concat (map (fun payload => fst (unserialize ser payload)) payloads).

(** The first failure while a frame's messages are dispatched: a handler
    that raised, else the exception that ended the iteration. *)
Definition frame_failure (s : Session) (it : list Msg * option exn) : option exn :=
  match deliver s (fst it) with
  | (_, _, Some e) => Some e
  | (_, _, None) => snd it
  end.

(** A new instance as Twisted hands it to [connectionMade]: [factory] and
    [transport] are assigned, [peer] and [_session] are not yet. *)
Definition buildProtocol (f : WampRawSocketFactory) (t : Transport)
  : WampRawSocketProtocol :=
  {| factory := f; transport := t; peer := Unset; _session := Unset;
     _unprocessed := [] |}.

(** The calls of the transport interface the session is given
    ([ITransport]: [send], [isOpen], [close], [abort]). *)
Definition is_transport_call (c : call) : bool :=
  match c with
  | CallSend _ | CallIsOpen | CallClose | CallAbort => true
  | _ => false
  end.

(** How such a call ends on a transport that is not open. *)
Definition closed_answer (c : call) : answer :=
  match c with
  | CallIsOpen => ReturnedBool false
  | _ => Raised TransportLost
  end.

(** The value [connectionMade] assigns to [peer]. *)
Definition peer_of (p : WampRawSocketProtocol) : string :=
  match getPeer (transport p) with
  | None => "?"
  | Some a => peer2str a
  end.

(** Two instances that differ at most in the factory's debug flag. *)
Definition with_debug (d : bool) (p : WampRawSocketProtocol) : WampRawSocketProtocol :=
  {| factory := {| _factory := _factory (factory p);
                   _serializer := _serializer (factory p);
                   debug := d |};
     transport := transport p; peer := peer p;
     _session := _session p; _unprocessed := _unprocessed p |}.

(** Same instance up to the debug flag. *)
Definition same_but_debug (p1 p2 : WampRawSocketProtocol) : Prop :=
  with_debug false p1 = with_debug false p2.

Definition result_rel {A} (R : A -> A -> Prop) (r1 r2 : result A) : Prop :=
  match r1, r2 with
  | Ok a, Ok b => R a b
  | Raise e1, Raise e2 => e1 = e2
  | _, _ => False
  end.

(** Two outcomes a caller, the session and the peer cannot tell apart:
    related results, instances equal up to the flag, the same calls on the
    session and the transport. *)
Definition same_behaviour {A} (R : A -> A -> Prop)
    (x y : result A * WampRawSocketProtocol * list event) : Prop :=
  result_rel R (fst (fst x)) (fst (fst y))
  /\ same_but_debug (snd (fst x)) (snd (fst y))
  /\ observable (snd x) = observable (snd y).

Definition debug_blind {A} (R : A -> A -> Prop) (m1 m2 : M A) : Prop :=
  forall p1 p2, same_but_debug p1 p2 -> same_behaviour R (m1 p1) (m2 p2).

(** A computation that writes no log line while the flag is off, and leaves
    the flag off. *)
Definition quiet {A} (m : M A) : Prop :=
  forall p,
    debug (factory p) = false ->
    filter is_log (snd (m p)) = []
    /\ debug (factory (snd (fst (m p)))) = false.

(** Every call but [connectionMade], which Twisted makes once, first. *)
Definition not_connectionMade (c : call) : bool :=
  match c with
  | CallConnectionMade => false
  | _ => true
  end.

(** The calls that reach the session. *)
Definition is_session_event (e : event) : bool :=
  match e with
  | OnOpen | OnMessage _ | OnClose _ => true
  | _ => false
  end.

(** The bytes a trace wrote to the connection, in order. *)
Definition written (t : list event) : list byte :=
  flat_map (fun e => match e with TransportWrite data => data | _ => [] end) t.

(** The payload the serializer gives for a message, and the frame [send]
    writes for it. *)
Definition payload_of (ser : ISerializer) (msg : Msg) : list byte :=
  match serialize ser msg with
  | Ok (payload, _) => payload
  | Raise _ => []
  end.

Definition frame_of (ser : ISerializer) (msg : Msg) : list byte :=
  Framing.encode (payload_of ser msg).

(** A message the serializer encodes, into a payload the length field can
    carry. *)
Definition sendable (ser : ISerializer) (msg : Msg) : Prop :=
  match serialize ser msg with
  | Ok (payload, _) => Framing.fits payload
  | Raise _ => False
  end.

(** A computation that keeps the property [I] of the instance and makes
    only the calls that [allowed] lets through. *)
Definition preserves {A} (I : WampRawSocketProtocol -> Prop)
    (allowed : event -> bool) (m : M A) : Prop :=
  forall p,
    I p ->
    I (snd (fst (m p))) /\ forallb allowed (snd (m p)) = true.

(** The session has been released. *)
Definition released (p : WampRawSocketProtocol) : Prop :=
  _session p = Value None.

(** [factory] and [transport] are the given ones. *)
Definition configured (f : WampRawSocketFactory) (tr : Transport)
    (p : WampRawSocketProtocol) : Prop :=
  factory p = f /\ transport p = tr.

End RawSocket.

Arguments ISerializer : clear implicits.
Arguments pyobject : clear implicits.
Arguments Transport : clear implicits.
Arguments WampRawSocketFactory : clear implicits.
Arguments WampRawSocketProtocol : clear implicits.
Arguments event : clear implicits.
Arguments call : clear implicits.
Arguments ITransportHandler : clear implicits.
Arguments Formatting : clear implicits.

(** ** A concrete serializer, session and transports *)

Module Demo.

(** One message per payload byte; a NUL byte is a protocol violation found
    when the iteration reaches it. *)
Fixpoint demo_unserialize (payload : list byte) : list byte * option exn :=
  match payload with
  | [] => ([], None)
  | b :: rest =>
      if Byte.eqb b x00 then ([], Some (ProtocolError "NUL byte"))
      else let (ms, r) := demo_unserialize rest in (b :: ms, r)
  end.

Definition demo_serialize (m : byte) : result (list byte * bool) :=
  if Byte.eqb m x00 then Raise (OtherException "cannot encode NUL")
  else Ok ([m], false).

Definition serializer : ISerializer byte :=
  {| serialize := demo_serialize; unserialize := demo_unserialize |}.

(** A session that records what it was given and fails where it is told to. *)
Record session : Type := {
  handled : list byte;
  closed_with : option bool;
  open_fails : bool;
  close_fails : bool
}.

Definition new_session (open_fails close_fails : bool) : session :=
  {| handled := []; closed_with := None;
     open_fails := open_fails; close_fails := close_fails |}.

#[global] Instance demo_handler : ITransportHandler byte session := {|
  onOpen s :=
    (s, if open_fails s then Some (OtherException "onOpen failed") else None);
  onMessage m s :=
    if Byte.eqb m "!"%byte
    then (s, Some (OtherException "handler failed"))
    else ({| handled := handled s ++ [m]; closed_with := closed_with s;
             open_fails := open_fails s; close_fails := close_fails s |}, None);
  onClose wasClean s :=
    ({| handled := handled s; closed_with := Some wasClean;
        open_fails := open_fails s; close_fails := close_fails s |},
     if close_fails s then Some (OtherException "onClose failed") else None)
|}.

#[global] Instance demo_formatting : Formatting byte string := {|
  str_msg m := String (ascii_of_byte m) EmptyString;
  peer2str a := a
|}.

Definition tcp : Transport string :=
  {| getPeer := Some "tcp4:127.0.0.1:9000"; has_abortConnection := true |}.

Definition process : Transport string :=
  {| getPeer := None; has_abortConnection := false |}.

Definition demo_factory (ctor : pyobject session) (dbg : bool)
  : WampRawSocketFactory byte session :=
  {| _factory := ctor; _serializer := serializer; debug := dbg |}.

(** An instance whose session is bound, as [connectionMade] leaves it. *)
Definition opened (t : Transport string) (dbg : bool)
  : WampRawSocketProtocol byte session string :=
  {| factory := demo_factory (Callable 0 (Ok (new_session false false))) dbg;
     transport := t; peer := Value "?";
     _session := Value (Some (new_session false false));
     _unprocessed := [] |}.

End Demo.

(** * autobahn/wamp/types.py *)

From Stdlib Require Import ZArith Floats.

Module Types.

(** ** Python values *)

(** The values the constructors of this module inspect.  [PyBytes] is
    Python 2's [str] and Python 3's [bytes]; [PyText] is Python 2's [unicode]
    and Python 3's [str] (the text kept UTF-8 encoded); [PyInt] is [int] and
    Python 2's [long]; dictionaries are taken with string keys; [PyCallable]
    is anything [callable] accepts: a function or method, or an instance of
    a class with [__call__]; [PyObject] is an instance of any other class.
    Both carry [truth], what [bool] answers for them: [True] for a function
    or method and for an instance of a class with neither [__bool__]
    ([__nonzero__] in Python 2) nor [__len__], otherwise what these
    methods of the class decide. *)
#[local] Unset Elimination Schemes.
Inductive pyvalue : Type :=
| PyNone
| PyBool (b : bool)
| PyInt (z : Z)
| PyFloat (f : float)
| PyBytes (s : string)
| PyText (s : string)
| PyList (xs : list pyvalue)
| PyDict (items : list (string * pyvalue))
| PyCallable (name : string) (truth : bool)
| PyObject (cls : string) (truth : bool).
#[local] Set Elimination Schemes.

(** What the module uses of [six]: the interpreter's major version, and
    [six.u], which turns a Python 2 [str] literal into [unicode]. *)
Record Six : Type := {
  PY2 : bool;
  u : string -> string
}.

(** [v is None] *)
Definition is_none (v : pyvalue) : bool :=
  match v with PyNone => true | _ => false end.

(** [type(v) == six.text_type] *)
Definition type_is_text (v : pyvalue) : bool :=
  match v with PyText _ => true | _ => false end.

(** [type(v) == str] *)
Definition type_is_str (six : Six) (v : pyvalue) : bool :=
  match v with
  | PyBytes _ => PY2 six
  | PyText _ => negb (PY2 six)
  | _ => false
  end.

(** [type(v) == bool] *)
Definition type_is_bool (v : pyvalue) : bool :=
  match v with PyBool _ => true | _ => false end.

(** [type(v) in six.integer_types]; a [bool] is not of type [int]. *)
Definition type_is_integer (v : pyvalue) : bool :=
  match v with PyInt _ => true | _ => false end.

(** [type(v) == float] *)
Definition type_is_float (v : pyvalue) : bool :=
  match v with PyFloat _ => true | _ => false end.

(** [type(v) == list and all(type(x) in six.integer_types for x in v)] *)
Definition is_list_of_integers (v : pyvalue) : bool :=
  match v with
  | PyList xs => forallb type_is_integer xs
  | _ => false
  end.

(** [callable(v)] *)
Definition is_callable (v : pyvalue) : bool :=
  match v with PyCallable _ _ => true | _ => false end.

(** [v in choices] for a text value and a list of text literals. *)
Definition text_in (v : pyvalue) (choices : list string) : bool :=
  match v with
  | PyText s => existsb (String.eqb s) choices
  | _ => false
  end.

(** [v > 0] for a number. *)
Definition greater_than_zero (v : pyvalue) : bool :=
  match v with
  | PyInt z => (0 <? z)%Z
  | PyFloat f => PrimFloat.ltb PrimFloat.zero f
  | _ => false
  end.

(** The truth value of [v], as [if v:] and [v or ...] take it. *)
Definition truthy (v : pyvalue) : bool :=
  match v with
  | PyNone => false
  | PyBool b => b
  | PyInt z => negb (z =? 0)%Z
  | PyFloat f => negb (PrimFloat.eqb f PrimFloat.zero)
  | PyBytes s | PyText s => negb (String.eqb s "")
  | PyList xs => match xs with [] => false | _ :: _ => true end
  | PyDict items => match items with [] => false | _ :: _ => true end
  | PyCallable _ truth | PyObject _ truth => truth
  end.

(** [if six.PY2 and type(v) == str: v = six.u(v)] *)
Definition to_text (six : Six) (v : pyvalue) : pyvalue :=
  if PY2 six then
    match v with
    | PyBytes s => PyText (u six s)
    | _ => v
    end
  else v.

(** [v is None or type(v) == six.text_type] *)
Definition none_or_text (v : pyvalue) : bool :=
  is_none v || type_is_text v.

(** [v is None or type(v) == bool] *)
Definition none_or_bool (v : pyvalue) : bool :=
  is_none v || type_is_bool v.

(** [assert(c)] *)
Definition py_assert (c : bool) : result unit :=
  if c then Ok tt else Raise AssertionError.

Definition and_then {A B} (r : result A) (k : A -> result B) : result B :=
  match r with
  | Ok a => k a
  | Raise e => Raise e
  end.

Notation "r ;;; k" := (and_then r (fun _ => k))
  (at level 61, right associativity).

(** ** The options dict sent within a WAMP message *)

Definition pydict : Type := list (string * pyvalue).

(** [d[k]], if present. *)
Fixpoint dict_get (k : string) (d : pydict) : option pyvalue :=
  match d with
  | [] => None
  | (k', v) :: d' => if String.eqb k k' then Some v else dict_get k d'
  end.

(** [d[k] = v] *)
Fixpoint dict_set (k : string) (v : pyvalue) (d : pydict) : pydict :=
  match d with
  | [] => [(k, v)]
  | (k', v') :: d' =>
      if String.eqb k k' then (k, v) :: d' else (k', v') :: dict_set k v d'
  end.

Definition dict_keys (d : pydict) : list string := map fst d.

(** ** Accept *)

Module Accept.

Record t : Type := {
  authid : pyvalue;
  authrole : pyvalue;
  authmethod : pyvalue;
  authprovider : pyvalue
}.

Definition __init__ (six : Six) (authid authrole authmethod authprovider : pyvalue)
  : result t :=
  let authid := to_text six authid in
  let authrole := to_text six authrole in
  let authmethod := to_text six authmethod in
  let authprovider := to_text six authprovider in
  py_assert (is_none authid || type_is_text authid) ;;;
  py_assert (is_none authrole || type_is_text authrole) ;;;
  py_assert (is_none authmethod || type_is_text authmethod) ;;;
  py_assert (is_none authprovider || type_is_text authprovider) ;;;
  Ok {| authid := authid; authrole := authrole;
        authmethod := authmethod; authprovider := authprovider |}.

End Accept.

(** ** Deny *)

Module Deny.

Record t : Type := { reason : pyvalue; message : pyvalue }.

(** The default of [reason]. *)
Definition default_reason : pyvalue := PyText "wamp.error.not_authorized".

Definition __init__ (six : Six) (reason message : pyvalue) : result t :=
  let reason := to_text six reason in
  let message := to_text six message in
  py_assert (type_is_text reason) ;;;
  py_assert (is_none message || type_is_text message) ;;;
  Ok {| reason := reason; message := message |}.

End Deny.

(** ** SubscribeOptions *)

Module SubscribeOptions.

(** The attribute [match] is [match_] here. *)
Record t : Type := {
  match_ : pyvalue;
  details_arg : pyvalue;
  options : pydict
}.

Definition __init__ (six : Six) (match_ details_arg : pyvalue) : result t :=
  py_assert (is_none match_
             || (type_is_text match_
                 && text_in match_ ["exact"; "prefix"; "wildcard"])) ;;;
  py_assert (is_none details_arg || type_is_str six details_arg) ;;;
  Ok {| match_ := match_; details_arg := details_arg;
        options := [("match", match_)] |}.

End SubscribeOptions.

(** ** PublishOptions *)

Module PublishOptions.

Record t : Type := {
  acknowledge : pyvalue;
  excludeMe : pyvalue;
  exclude : pyvalue;
  eligible : pyvalue;
  discloseMe : pyvalue;
  options : pydict
}.

Definition __init__ (acknowledge excludeMe exclude eligible discloseMe : pyvalue)
  : result t :=
  py_assert (is_none acknowledge || type_is_bool acknowledge) ;;;
  py_assert (is_none excludeMe || type_is_bool excludeMe) ;;;
  py_assert (is_none exclude || is_list_of_integers exclude) ;;;
  py_assert (is_none eligible || is_list_of_integers eligible) ;;;
  py_assert (is_none discloseMe || type_is_bool discloseMe) ;;;
  Ok {| acknowledge := acknowledge; excludeMe := excludeMe;
        exclude := exclude; eligible := eligible; discloseMe := discloseMe;
        options := [("acknowledge", acknowledge); ("excludeMe", excludeMe);
                    ("exclude", exclude); ("eligible", eligible);
                    ("discloseMe", discloseMe)] |}.

End PublishOptions.

(** ** CallOptions *)

Module CallOptions.

Record t : Type := {
  onProgress : pyvalue;
  timeout : pyvalue;
  discloseMe : pyvalue;
  runOn : pyvalue;
  options : pydict
}.

Definition __init__ (onProgress timeout discloseMe runOn : pyvalue) : result t :=
  py_assert (is_none onProgress || is_callable onProgress) ;;;
  py_assert (is_none timeout
             || ((type_is_integer timeout || type_is_float timeout)
                 && greater_than_zero timeout)) ;;;
  py_assert (is_none discloseMe || type_is_bool discloseMe) ;;;
  py_assert (is_none runOn
             || (type_is_text runOn && text_in runOn ["all"; "any"; "partition"])) ;;;
  let options := [("timeout", timeout); ("discloseMe", discloseMe)] in
  let options :=
    if truthy onProgress
    then dict_set "receive_progress" (PyBool true) options
    else options in
  Ok {| onProgress := onProgress; timeout := timeout;
        discloseMe := discloseMe; runOn := runOn; options := options |}.

End CallOptions.

End Types.

(** * Properties *)

(** ** Frame Codec *)

Section FramingFacts.

Import Framing.

Lemma to_N_byte_of_N (n : N) : Byte.to_N (byte_of_N n) = (n mod 256)%N.
Proof.
  unfold byte_of_N.
  destruct (Byte.of_N (n mod 256)) as [b|] eqn:E.
  - now apply Byte.to_of_N in E.
  - apply Byte.of_N_None_iff in E.
    pose proof (N.mod_lt n 256). lia.
Qed.

Lemma unpack_pack_be32 (n : N) :
  (n < length_limit)%N ->
  unpack_be32 (byte_of_N (n / 16777216)) (byte_of_N (n / 65536))
              (byte_of_N (n / 256)) (byte_of_N n) = n.
Proof.
  unfold length_limit, unpack_be32. intros Hn.
  rewrite !to_N_byte_of_N.
  assert (H3 : (n / 16777216 < 256)%N)
    by (apply N.Div0.div_lt_upper_bound; lia).
  rewrite (N.mod_small (n / 16777216)) by exact H3.
  pose proof (N.div_mod n 256 ltac:(lia)) as E0.
  pose proof (N.div_mod (n / 256) 256 ltac:(lia)) as E1.
  pose proof (N.div_mod (n / 65536) 256 ltac:(lia)) as E2.
  rewrite N.Div0.div_div in E1. change (256 * 256)%N with 65536%N in E1.
  rewrite N.Div0.div_div in E2. change (65536 * 256)%N with 16777216%N in E2.
  lia.
Qed.

Lemma extract_frame (fuel : nat) (b3 b2 b1 b0 : byte) (rest : list byte) :
  extract (S fuel) (b3 :: b2 :: b1 :: b0 :: rest)
  = if N.to_nat (unpack_be32 b3 b2 b1 b0) <=? length rest
    then (firstn (N.to_nat (unpack_be32 b3 b2 b1 b0)) rest
            :: fst (extract fuel (skipn (N.to_nat (unpack_be32 b3 b2 b1 b0)) rest)),
          snd (extract fuel (skipn (N.to_nat (unpack_be32 b3 b2 b1 b0)) rest)))
    else ([], b3 :: b2 :: b1 :: b0 :: rest).
Proof.
  cbn [extract].
  destruct (_ <=? _); [|reflexivity].
  now destruct (extract fuel _).
Qed.

Lemma extract_fuel_any (f1 : nat) :
  forall f2 buf, length buf <= f1 -> length buf <= f2 ->
  extract f1 buf = extract f2 buf.
Proof.
  induction f1 as [|f1 IH]; intros f2 buf H1 H2.
  - destruct buf; [now destruct f2 | simpl in H1; lia].
  - destruct f2 as [|f2]; [destruct buf; [reflexivity | simpl in H2; lia]|].
    destruct buf as [|b3 [|b2 [|b1 [|b0 rest]]]]; try reflexivity.
    rewrite !extract_frame. simpl in H1, H2.
    destruct (N.to_nat (unpack_be32 b3 b2 b1 b0) <=? length rest); [|reflexivity].
    rewrite (IH f2); [reflexivity | |]; rewrite length_skipn; lia.
Qed.

Lemma extract_fuel (fuel : nat) (buf : list byte) :
  length buf <= fuel -> extract fuel buf = extract (length buf) buf.
Proof. intros H. apply extract_fuel_any; lia. Qed.

(** What [extract] leaves behind holds no complete frame. *)
Lemma extract_residual (fuel : nat) :
  forall buf ps r, length buf <= fuel -> extract fuel buf = (ps, r) ->
  extract (length r) r = ([], r).
Proof.
  induction fuel as [|fuel IH]; intros buf ps r Hlen E.
  - destruct buf; [|simpl in Hlen; lia]. now inversion E.
  - destruct buf as [|b3 [|b2 [|b1 [|b0 rest]]]];
      try (inversion E; subst; reflexivity).
    rewrite extract_frame in E. simpl in Hlen.
    destruct (N.to_nat (unpack_be32 b3 b2 b1 b0) <=? length rest) eqn:Hn.
    + destruct (extract fuel (skipn _ rest)) as [ps0 r0] eqn:E0.
      inversion E; subst. eapply IH; [|exact E0].
      rewrite length_skipn. lia.
    + inversion E; subst. cbn [length]. now rewrite extract_frame, Hn.
Qed.

(** More bytes behind a buffer do not disturb the frames already complete in
    it: they are extracted first, and the rest is parsed from what was left. *)
Lemma extract_app (fuel : nat) :
  forall buf more ps r,
    length buf <= fuel -> extract fuel buf = (ps, r) ->
    extract (length (buf ++ more)) (buf ++ more)
    = (ps ++ fst (extract (length (r ++ more)) (r ++ more)),
       snd (extract (length (r ++ more)) (r ++ more))).
Proof.
  induction fuel as [|fuel IH]; intros buf more ps r Hlen E.
  - destruct buf; [|simpl in Hlen; lia]. inversion E; subst.
    simpl. now destruct (extract _ more).
  - assert (Hstop : (ps, r) = ([], buf) ->
              extract (length (buf ++ more)) (buf ++ more)
              = (ps ++ fst (extract (length (r ++ more)) (r ++ more)),
                 snd (extract (length (r ++ more)) (r ++ more)))).
    { intros H; inversion H; subst. simpl.
      now destruct (extract _ (buf ++ more)). }
    destruct buf as [|b3 [|b2 [|b1 [|b0 rest]]]];
      try (apply Hstop; now rewrite <- E).
    rewrite extract_frame in E. simpl in Hlen.
    destruct (N.to_nat (unpack_be32 b3 b2 b1 b0) <=? length rest) eqn:Hn;
      [|apply Hstop; now rewrite <- E].
    clear Hstop. apply Nat.leb_le in Hn.
    destruct (extract fuel (skipn _ rest)) as [ps0 r0] eqn:E0.
    inversion E; subst; clear E.
    cbn [app length]. rewrite extract_frame.
    set (n := N.to_nat (unpack_be32 b3 b2 b1 b0)) in *.
    assert (Hn' : (n <=? length (rest ++ more)) = true)
      by (apply Nat.leb_le; rewrite length_app; lia).
    rewrite Hn'.
    rewrite skipn_app, firstn_app.
    replace (n - length rest) with 0 by lia.
    rewrite skipn_O, firstn_O, app_nil_r.
    assert (Hsk : length (skipn n rest) <= fuel)
      by (rewrite length_skipn; lia).
    specialize (@IH (skipn n rest) more ps0 r Hsk E0).
    rewrite (@extract_fuel_any (S (S (S (length (rest ++ more)))))
               (length (skipn n rest ++ more))).
    + rewrite IH. reflexivity.
    + rewrite !length_app, length_skipn. lia.
    + lia.
Qed.

Lemma feed_all_concat (reads : list (list byte)) :
  forall buffered,
    extract (length buffered) buffered = ([], buffered) ->
    feed_all buffered reads
    = extract (length (buffered ++ concat reads)) (buffered ++ concat reads).
Proof.
  induction reads as [|data reads IH]; intros buffered Hres.
  - simpl. now rewrite app_nil_r, Hres.
  - cbn [feed_all concat]. unfold feed.
    destruct (extract (length (buffered ++ data)) (buffered ++ data))
      as [ps r] eqn:E.
    pose proof (@extract_residual _ _ _ _ (le_n _) E) as Hr.
    rewrite (IH r Hr).
    rewrite app_assoc.
    rewrite (@extract_app _ (buffered ++ data) (concat reads) _ _ (le_n _) E).
    now destruct (extract _ (r ++ concat reads)).
Qed.

Lemma extract_encode (payload rest : list byte) :
  fits payload ->
  extract (length (encode payload ++ rest)) (encode payload ++ rest)
  = (payload :: fst (extract (length rest) rest),
     snd (extract (length rest) rest)).
Proof.
  intros Hs. unfold encode, pack_be32.
  cbn [app length]. rewrite extract_frame.
  rewrite unpack_pack_be32 by exact Hs.
  rewrite Nnat.Nat2N.id.
  assert (H : (length payload <=? length (payload ++ rest)) = true)
    by (apply Nat.leb_le; rewrite length_app; lia).
  rewrite H.
  rewrite skipn_app, firstn_app, Nat.sub_diag, skipn_all, firstn_all.
  rewrite skipn_O, firstn_O, app_nil_r. cbn [app].
  rewrite (@extract_fuel (S (S (S (length (payload ++ rest))))) rest)
    by (rewrite length_app; lia).
  now destruct (extract (length rest) rest).
Qed.

Lemma extract_frames (ps : list (list byte)) (tail : list byte) :
  Forall fits ps ->
  extract (length tail) tail = ([], tail) ->
  extract (length (concat (map encode ps) ++ tail)) (concat (map encode ps) ++ tail)
  = (ps, tail).
Proof.
  intros Hs Ht. induction Hs as [|payload ps Hp _ IH].
  - exact Ht.
  - cbn [map concat]. rewrite <- app_assoc.
    rewrite extract_encode by exact Hp. now rewrite IH.
Qed.

(** A frame cut short anywhere yields nothing yet. *)
Lemma extract_partial (payload : list byte) (k : nat) :
  fits payload -> k < length (encode payload) ->
  extract (length (firstn k (encode payload))) (firstn k (encode payload))
  = ([], firstn k (encode payload)).
Proof.
  intros Hs Hk. unfold encode, pack_be32 in *. cbn [app length] in Hk.
  destruct k as [|[|[|[|k]]]]; try reflexivity.
  cbn [app firstn length]. rewrite extract_frame.
  rewrite unpack_pack_be32 by exact Hs.
  rewrite Nnat.Nat2N.id.
  assert (H : (length payload <=? length (firstn k payload)) = false)
    by (apply Nat.leb_gt; rewrite length_firstn; lia).
  now rewrite H.
Qed.

End FramingFacts.

(** ** Frame Codec: the wire format and complete-frame dispatch *)

(** C7. Every frame is a 4-byte big-endian length N followed by the N payload
    bytes.  Whatever way the reads cut the byte stream of the frames [ps]
    followed by the first [k] bytes of a further frame [q], feeding the reads
    in order yields exactly the payloads [ps], in stream order, and keeps the
    partial frame buffered; [q] is yielded once its remaining bytes arrive. *)
Theorem frames_dispatched_when_complete
    (ps : list (list byte)) (q : list byte) (k : nat) (reads : list (list byte)) :
  Forall Framing.fits ps -> Framing.fits q ->
  k < length (Framing.encode q) ->
  concat reads = concat (map Framing.encode ps) ++ firstn k (Framing.encode q) ->
  Forall (fun payload =>
            exists b3 b2 b1 b0,
              Framing.encode payload = b3 :: b2 :: b1 :: b0 :: payload
              /\ Framing.unpack_be32 b3 b2 b1 b0 = N.of_nat (length payload)) ps
  /\ Framing.feed_all [] reads = (ps, firstn k (Framing.encode q))
  /\ Framing.feed (firstn k (Framing.encode q)) (skipn k (Framing.encode q))
     = ([q], []).
Proof.
  intros Hps Hq Hk Hreads. split; [|split].
  - eapply Forall_impl; [|exact Hps].
    intros payload Hp. do 4 eexists. split; [reflexivity|].
    now apply unpack_pack_be32.
  - rewrite feed_all_concat by reflexivity. cbn [app]. rewrite Hreads.
    apply extract_frames; [exact Hps|].
    now apply extract_partial.
  - unfold Framing.feed. rewrite firstn_skipn.
    pose proof (@extract_frames [q] [] (Forall_cons _ Hq (Forall_nil _)) eq_refl) as H.
    cbn [map concat] in H. now rewrite !app_nil_r in H.
Qed.

Lemma frames_dispatched_when_complete_witness :
  Framing.feed_all []
    [[x00; x00; x00; x03; "a"]; ["b"; "c"; x00; x00; x00; x01; "x"; x00; x00]; [x00]]%byte
  = ([["a"; "b"; "c"]; ["x"]]%byte, [x00; x00; x00]).
Proof.
  refine (proj1 (proj2 (@frames_dispatched_when_complete
            [["a"; "b"; "c"]; ["x"]]%byte ["y"]%byte 3
            [[x00; x00; x00; x03; "a"];
             ["b"; "c"; x00; x00; x00; x01; "x"; x00; x00]; [x00]]%byte
            _ _ _ _))).
  - repeat constructor.
  - reflexivity.
  - simpl. lia.
  - reflexivity.
Defined.

(** ** The protocol methods *)

Section ProtocolFacts.

Context {Msg Session Peer : Type}.
Context {fmt : Formatting Msg Peer} {handler : ITransportHandler Msg Session}.

Implicit Types (p : WampRawSocketProtocol Msg Session Peer).
Implicit Types (s : Session) (t : list (event Msg)).

Lemma observable_app t1 t2 :
  observable (t1 ++ t2) = observable t1 ++ observable t2.
Proof. apply filter_app. Qed.

Lemma set_session_bound p s :
  _session p = Value (Some s) -> set_session (Some s) p = p.
Proof. destruct p; simpl; intros ->; reflexivity. Qed.

Lemma bind_ok {A B} {m : M A} {k : A -> M B} {p a p1 t1} :
  m p = (Ok a, p1, t1) ->
  bind m k p = (fst (fst (k a p1)), snd (fst (k a p1)), t1 ++ snd (k a p1)).
Proof.
  intros E. unfold bind. rewrite E. now destruct (k a p1) as [[? ?] ?].
Qed.

Lemma bind_raise {A B} {m : M A} {k : A -> M B} {p e p1 t1} :
  m p = (Raise e, p1, t1) -> bind m k p = (Raise e, p1, t1).
Proof. intros E. unfold bind. now rewrite E. Qed.

(** A debug line leaves the instance alone and shows only in the log. *)
Lemma when_debug_log line p :
  exists t, when_debug (log_msg line) p = (Ok tt, p, t) /\ observable t = [].
Proof.
  unfold when_debug, log_msg, emit, ret.
  destruct (debug (factory p)); eexists; split; reflexivity.
Qed.

Lemma isOpen_bound p s :
  _session p = Value (Some s) -> isOpen p = (Ok true, p, []).
Proof. intros H. unfold isOpen. now rewrite H. Qed.

Lemma isOpen_none p :
  _session p = Value None -> isOpen p = (Ok false, p, []).
Proof. intros H. unfold isOpen. now rewrite H. Qed.

Lemma abort_bound p s :
  _session p = Value (Some s) -> abort p = (Ok tt, p, [abort_event p]).
Proof.
  intros H. unfold abort. erewrite (bind_ok (isOpen_bound p H)).
  unfold bind, get, abort_event, emit.
  now destruct (has_abortConnection (transport p)).
Qed.

Lemma forward_bound msg p s :
  _session p = Value (Some s) ->
  exists t,
    forward msg p
    = (match snd (onMessage msg s) with None => Ok tt | Some e => Raise e end,
       set_session (Some (fst (onMessage msg s))) p, t)
    /\ observable t = [OnMessage msg].
Proof.
  intros H. unfold forward.
  destruct (when_debug_log ("RX WAMP message: " ++ str_msg msg)%string p)
    as [t0 [E0 O0]].
  erewrite (bind_ok E0). unfold session_call. rewrite H.
  destruct (onMessage msg s) as [s1 r]. cbn [fst snd].
  eexists. split; [reflexivity|].
  now rewrite observable_app, O0.
Qed.

Lemma for_each_forward (msgs : list Msg) :
  forall p s s' fw r,
    _session p = Value (Some s) ->
    deliver s msgs = (s', fw, r) ->
    exists t,
      for_each msgs forward p
      = (match r with None => Ok tt | Some e => Raise e end,
         set_session (Some s') p, t)
      /\ observable t = map OnMessage fw.
Proof.
  induction msgs as [|m ms IH]; intros p s s' fw r Hs D.
  - inversion D; subst. exists []. split; [|reflexivity].
    cbn [for_each]. unfold ret. now rewrite set_session_bound.
  - cbn [for_each deliver] in *.
    destruct (forward_bound m p Hs) as [t0 [E0 O0]].
    destruct (onMessage m s) as [s1 [e|]]; cbn [fst snd] in E0.
    + inversion D; subst.
      erewrite (bind_raise E0). exists t0. now split.
    + destruct (deliver s1 ms) as [[s2 fw2] r2] eqn:D2.
      inversion D; subst.
      erewrite (bind_ok E0).
      destruct (IH (set_session (Some s1) p) s1 s' fw2 r eq_refl D2)
        as [t1 [E1 O1]].
      rewrite E1. cbn [fst snd].
      exists (t0 ++ t1). split; [reflexivity|].
      now rewrite observable_app, O0, O1.
Qed.

Lemma try_except_ok {A} {m : M A} {h : exn -> M A} {p a p1 t1} :
  m p = (Ok a, p1, t1) -> try_except m h p = (Ok a, p1, t1).
Proof.
  intros E. unfold try_except, try_except_else, ret. rewrite E.
  now rewrite app_nil_r.
Qed.

Lemma try_except_raise {A} {m : M A} {h : exn -> M A} {p e p1 t1} :
  m p = (Raise e, p1, t1) ->
  try_except m h p
  = (fst (fst (h e p1)), snd (fst (h e p1)), t1 ++ snd (h e p1)).
Proof.
  intros E. unfold try_except, try_except_else. rewrite E.
  now destruct (h e p1) as [[? ?] ?].
Qed.

Lemma observable_abort_event p :
  observable [abort_event p] = [abort_event p].
Proof. unfold abort_event. now destruct (has_abortConnection (transport p)). Qed.

Lemma log_then_abort line p s :
  _session p = Value (Some s) ->
  exists t,
    bind (when_debug (log_msg line)) (fun _ => abort) p = (Ok tt, p, t)
    /\ observable t = [abort_event p].
Proof.
  intros H. destruct (when_debug_log line p) as [t0 [E0 O0]].
  erewrite (bind_ok E0). rewrite (abort_bound p H). cbn [fst snd].
  eexists. split; [reflexivity|].
  now rewrite observable_app, O0, observable_abort_event.
Qed.

(** One frame, with a session bound: the handler is called on the messages
    in order up to the first failure; a failure is answered by [abort] and
    nothing is raised to the caller. *)
Lemma stringReceived_bound payload p s s' fw r :
  _session p = Value (Some s) ->
  deliver s (fst (unserialize (_serializer (factory p)) payload)) = (s', fw, r) ->
  exists t,
    stringReceived payload p = (Ok tt, set_session (Some s') p, t)
    /\ observable t
       = map OnMessage fw
         ++ match frame_failure s (unserialize (_serializer (factory p)) payload) with
            | Some _ => [abort_event p]
            | None => []
            end.
Proof.
  intros Hs D. unfold stringReceived, frame_failure. rewrite D.
  destruct (when_debug_log ("RX octets: " ++ hexlify payload)%string p)
    as [t0 [E0 O0]].
  erewrite (bind_ok E0).
  destruct (for_each_forward _ p Hs D) as [t1 [E1 O1]].
  set (it := unserialize (_serializer (factory p)) payload) in *.
  assert (Hab : forall e,
             exists t,
               (match e with
                | ProtocolError _ =>
                    bind (when_debug (log_msg ("WAMP Protocol Error (" ++ str_exn e
                                ++ ") - aborting connection")%string))
                         (fun _ => abort)
                | _ =>
                    bind (when_debug (log_msg ("WAMP Internal Error (" ++ str_exn e
                                ++ ") - aborting connection")%string))
                         (fun _ => abort)
                end) (set_session (Some s') p)
               = (Ok tt, set_session (Some s') p, t)
               /\ observable t = [abort_event p]).
  { intros e.
    destruct e;
      match goal with
      | |- context [log_msg ?l] =>
          destruct (@log_then_abort l (set_session (Some s') p) s' eq_refl)
            as [t2 [E2 O2]]
      end; exists t2; split; assumption. }
  assert (Hinner :
            bind get (fun p0 => iterate (unserialize (_serializer (factory p0)) payload) forward) p
            = (match r with
               | Some e => Raise e
               | None => match snd it with Some e => Raise e | None => Ok tt end
               end, set_session (Some s') p, t1)).
  { unfold bind at 1. unfold get. fold it. unfold iterate.
    destruct r as [e|].
    - erewrite (bind_raise E1). reflexivity.
    - erewrite (bind_ok E1).
      destruct (snd it); unfold raise, ret; cbn [fst snd];
        now rewrite app_nil_r. }
  destruct r as [e|]; [|destruct (snd it) as [e|]].
  - erewrite (try_except_raise Hinner).
    destruct (Hab e) as [t2 [E2 O2]]. rewrite E2. cbn [fst snd].
    eexists. split; [reflexivity|].
    now rewrite !observable_app, O0, O1, O2.
  - erewrite (try_except_raise Hinner).
    destruct (Hab e) as [t2 [E2 O2]]. rewrite E2. cbn [fst snd].
    eexists. split; [reflexivity|].
    now rewrite !observable_app, O0, O1, O2.
  - erewrite (try_except_ok Hinner). cbn [fst snd].
    eexists. split; [reflexivity|].
    now rewrite !observable_app, O0, O1, app_nil_r.
Qed.

Lemma deliver_ok_all (msgs : list Msg) :
  forall s s' fw, deliver s msgs = (s', fw, None) -> fw = msgs.
Proof.
  induction msgs as [|m ms IH]; intros s s' fw D; cbn [deliver] in D.
  - now inversion D.
  - destruct (onMessage m s) as [s1 [e|]]; [discriminate|].
    destruct (deliver s1 ms) as [[s2 fw2] r2] eqn:D2.
    inversion D; subst. now rewrite (IH _ _ _ D2).
Qed.

Lemma deliver_app_ok (a b : list Msg) :
  forall s s' fw,
    deliver s (a ++ b) = (s', fw, None) ->
    exists s1, deliver s a = (s1, a, None) /\ deliver s1 b = (s', b, None).
Proof.
  induction a as [|m ms IH]; intros s s' fw D; cbn [app deliver] in *.
  - exists s. split; [reflexivity|].
    now rewrite D, (deliver_ok_all _ _ D).
  - destruct (onMessage m s) as [s1 [e|]]; [discriminate|].
    destruct (deliver s1 (ms ++ b)) as [[s2 fw2] r2] eqn:D2.
    inversion D; subst.
    destruct (IH _ _ _ D2) as [s3 [Da Db]].
    exists s3. now rewrite Da.
Qed.

(** Frames that decode and are handled without a failure. *)
Lemma frames_forwarded (payloads : list (list byte)) :
  forall p s s' fw,
    _session p = Value (Some s) ->
    Forall (fun payload =>
              snd (unserialize (_serializer (factory p)) payload) = None) payloads ->
    deliver s (decoded (_serializer (factory p)) payloads) = (s', fw, None) ->
    exists t,
      for_each payloads stringReceived p = (Ok tt, set_session (Some s') p, t)
      /\ observable t = map OnMessage (decoded (_serializer (factory p)) payloads).
Proof.
  induction payloads as [|payload rest IH]; intros p s s' fw Hs Hok D.
  - inversion D; subst. exists []. split; [|reflexivity].
    cbn [for_each]. unfold ret. now rewrite set_session_bound.
  - unfold decoded in D. cbn [map concat] in D. fold (decoded (_serializer (factory p)) rest) in D.
    destruct (deliver_app_ok _ _ _ D) as [s1 [D1 D2]].
    inversion Hok as [|? ? Hp Hrest]; subst.
    destruct (stringReceived_bound payload p Hs D1) as [t1 [E1 O1]].
    unfold frame_failure in O1. rewrite D1, Hp, app_nil_r in O1.
    destruct (IH (set_session (Some s1) p) s1 s' _ eq_refl Hrest D2)
      as [t2 [E2 O2]].
    cbn [for_each]. erewrite (bind_ok E1). rewrite E2. cbn [fst snd].
    exists (t1 ++ t2). split; [reflexivity|].
    rewrite observable_app, O1, O2. unfold decoded. cbn [map concat].
    now rewrite map_app.
Qed.

Lemma reads_forwarded (reads : list (list byte)) :
  forall p s payloads rest s' fw,
    _session p = Value (Some s) ->
    Framing.feed_all (_unprocessed p) reads = (payloads, rest) ->
    Forall (fun payload =>
              snd (unserialize (_serializer (factory p)) payload) = None) payloads ->
    deliver s (decoded (_serializer (factory p)) payloads) = (s', fw, None) ->
    exists t,
      run (map CallDataReceived reads) p
      = (map (fun _ => Returned) reads,
         set_unprocessed rest (set_session (Some s') p), t)
      /\ observable t = map OnMessage (decoded (_serializer (factory p)) payloads).
Proof.
  induction reads as [|data reads IH]; intros p s payloads rest s' fw Hs F Hok D.
  - cbn [Framing.feed_all] in F. inversion F; subst.
    inversion D; subst. exists []. split; [|reflexivity].
    cbn [map run]. rewrite set_session_bound by exact Hs.
    now destruct p.
  - cbn [Framing.feed_all] in F.
    destruct (Framing.feed (_unprocessed p) data) as [ps1 r1] eqn:F1.
    destruct (Framing.feed_all r1 reads) as [ps2 r2] eqn:F2.
    inversion F; subst; clear F.
    apply Forall_app in Hok. destruct Hok as [Hok1 Hok2].
    unfold decoded in D. rewrite map_app, concat_app in D.
    destruct (deliver_app_ok _ _ _ D) as [s1 [D1 D2]].
    destruct (@frames_forwarded ps1 (set_unprocessed r1 p) s s1 _ Hs Hok1 D1)
      as [t1 [E1 O1]].
    destruct (IH (set_session (Some s1) (set_unprocessed r1 p)) s1 ps2 rest s' _
                 eq_refl F2 Hok2 D2) as [t2 [E2 O2]].
    cbn [map run perform]. unfold dataReceived.
    unfold bind at 1. unfold get. rewrite F1.
    unfold bind at 1. unfold modify. rewrite E1. cbn [answer_unit].
    rewrite E2.
    exists (([] ++ [] ++ t1) ++ t2). split; [reflexivity|].
    rewrite !observable_app, O1, O2. cbn [observable filter app].
    unfold decoded. now rewrite map_app, concat_app, map_app.
Qed.

Lemma strings_forwarded (payloads : list (list byte)) :
  forall p s s' fw,
    _session p = Value (Some s) ->
    Forall (fun payload =>
              snd (unserialize (_serializer (factory p)) payload) = None) payloads ->
    deliver s (decoded (_serializer (factory p)) payloads) = (s', fw, None) ->
    exists t,
      run (map CallStringReceived payloads) p
      = (map (fun _ => Returned) payloads, set_session (Some s') p, t)
      /\ observable t = map OnMessage (decoded (_serializer (factory p)) payloads).
Proof.
  induction payloads as [|payload rest IH]; intros p s s' fw Hs Hok D.
  - inversion D; subst. exists []. split; [|reflexivity].
    cbn [map run]. now rewrite set_session_bound.
  - unfold decoded in D. cbn [map concat] in D.
    destruct (deliver_app_ok _ _ _ D) as [s1 [D1 D2]].
    inversion Hok as [|? ? Hp Hrest]; subst.
    destruct (stringReceived_bound payload p Hs D1) as [t1 [E1 O1]].
    unfold frame_failure in O1. rewrite D1, Hp, app_nil_r in O1.
    destruct (IH (set_session (Some s1) p) s1 s' _ eq_refl Hrest D2)
      as [t2 [E2 O2]].
    cbn [map run perform]. rewrite E1. cbn [answer_unit]. rewrite E2.
    exists (t1 ++ t2). split; [reflexivity|].
    rewrite observable_app, O1, O2. unfold decoded. cbn [map concat].
    now rewrite map_app.
Qed.

(** ** Inbound messages *)

(** C1. With a session bound, payloads that [unserialize] decodes without a
    failure and whose messages the session handles without raising are
    forwarded to [onMessage] message by message, in order, each exactly once
    and with nothing else happening on the session or the transport: both
    when the payloads are handed to [stringReceived] one by one and when
    their frames arrive through [dataReceived] cut into reads in any way. *)
Theorem received_messages_forwarded_in_order
    p s s' fw (ps : list (list byte)) :
  _session p = Value (Some s) ->
  Forall (fun payload =>
            snd (unserialize (_serializer (factory p)) payload) = None) ps ->
  deliver s (decoded (_serializer (factory p)) ps) = (s', fw, None) ->
  (exists t,
      run (map CallStringReceived ps) p
      = (map (fun _ => Returned) ps, set_session (Some s') p, t)
      /\ observable t = map OnMessage (decoded (_serializer (factory p)) ps))
  /\ forall reads : list (list byte),
      _unprocessed p = [] ->
      Forall Framing.fits ps ->
      concat reads = concat (map Framing.encode ps) ->
      exists t,
        run (map CallDataReceived reads) p
        = (map (fun _ => Returned) reads, set_session (Some s') p, t)
        /\ observable t = map OnMessage (decoded (_serializer (factory p)) ps).
Proof.
  intros Hs Hok D. split.
  - exact (strings_forwarded p Hs Hok D).
  - intros reads Hbuf Hfit Hreads.
    assert (F : Framing.feed_all (_unprocessed p) reads = (ps, [])).
    { rewrite Hbuf, feed_all_concat by reflexivity. cbn [app].
      rewrite Hreads, <- (app_nil_r (concat _)).
      now apply extract_frames. }
    destruct (reads_forwarded _ p Hs F Hok D) as [t [E O]].
    exists t. split; [|exact O].
    rewrite E. f_equal. f_equal.
    destruct p; cbn in *; now subst.
Qed.

(** ** Connection loss *)

Lemma connectionLost_bound reason p s :
  _session p = Value (Some s) ->
  exists t,
    connectionLost reason p = (Ok tt, set_session None p, t)
    /\ observable t = [OnClose (isinstance_ConnectionDone reason)].
Proof.
  intros H.
  unfold connectionLost, bind, try_except, try_except_else, when_debug,
    log_msg, emit, ret, modify, session_call.
  destruct (debug (factory p)) eqn:Hd; cbn beta iota; rewrite H;
    destruct (onClose (isinstance_ConnectionDone reason) s) as [s1 [e|]];
    cbn [factory set_session debug]; rewrite ?Hd;
    eexists; split; reflexivity.
Qed.

Lemma connectionLost_unbound reason p :
  _session p = Unset \/ _session p = Value None ->
  exists t,
    connectionLost reason p = (Ok tt, set_session None p, t)
    /\ observable t = [].
Proof.
  intros H.
  unfold connectionLost, bind, try_except, try_except_else, when_debug,
    log_msg, emit, ret, modify, session_call.
  destruct (debug (factory p)) eqn:Hd; cbn beta iota;
    destruct H as [H|H]; rewrite H; rewrite ?Hd;
    eexists; split; reflexivity.
Qed.

(** Without the debug flag no method writes a log line. *)
Lemma connectionLost_quiet reason p :
  debug (factory p) = false ->
  filter is_log (snd (connectionLost reason p)) = [].
Proof.
  intros Hd.
  unfold connectionLost, bind, try_except, try_except_else, when_debug,
    log_msg, emit, ret, modify, session_call.
  rewrite Hd. cbn beta iota.
  destruct (_session p) as [|[s|]]; rewrite ?Hd; [reflexivity| |reflexivity].
  destruct (onClose (isinstance_ConnectionDone reason) s) as [s1 [e|]];
    cbn [factory set_session debug]; rewrite ?Hd; reflexivity.
Qed.

(** C6. [connectionLost] always returns normally and always ends with
    [_session] set to [None], whatever the session's [onClose] does (the
    statement ranges over every handler, those that raise included) and
    whether or not a session was bound; without the debug flag nothing is
    logged either. *)
Theorem connectionLost_always_releases_session reason p :
  exists t,
    connectionLost reason p = (Ok tt, set_session None p, t)
    /\ _session (set_session None p) = Value None
    /\ (debug (factory p) = false -> filter is_log t = []).
Proof.
  assert (E : exists t, connectionLost reason p = (Ok tt, set_session None p, t)).
  { destruct (_session p) as [|[s|]] eqn:H.
    - destruct (@connectionLost_unbound reason p (or_introl H)) as [t [E _]].
      now exists t.
    - destruct (connectionLost_bound reason p H) as [t [E _]]. now exists t.
    - destruct (@connectionLost_unbound reason p (or_intror H)) as [t [E _]].
      now exists t. }
  destruct E as [t E]. exists t. split; [exact E|]. split; [reflexivity|].
  intros Hd. pose proof (connectionLost_quiet reason p Hd) as Q.
  now rewrite E in Q.
Qed.

(** What [connectionLost] leaves in the log and at the session when the
    session [s] is bound: the handler is run once, on [s], with the
    [wasClean] computed from the reason, and what it raises is logged under
    the debug flag and otherwise dropped. *)
Lemma connectionLost_notify_bound reason p s :
  _session p = Value (Some s) ->
  let wasClean := isinstance_ConnectionDone reason in
  let t :=
    (if debug (factory p)
     then [LogMsg ("WAMP-over-RawSocket connection lost: reason = '"
                   ++ str_reason reason ++ "'")%string]
     else [])
    ++ OnClose wasClean
       :: match snd (onClose wasClean s) with
          | Some e =>
              if debug (factory p)
              then [LogMsg ("ApplicationSession.onClose raised ("
                            ++ str_exn e ++ ")")%string]
              else []
          | None => []
          end in
  connectionLost_notify reason p
  = (Ok tt, set_session (Some (fst (onClose wasClean s))) p, t)
  /\ connectionLost reason p = (Ok tt, set_session None p, t)
  /\ observable t = [OnClose wasClean].
Proof.
  intros H. cbv zeta.
  unfold connectionLost, connectionLost_notify, bind, try_except,
    try_except_else, when_debug, log_msg, emit, ret, modify, session_call.
  destruct (debug (factory p)) eqn:Hd; cbn beta iota; rewrite H;
    destruct (onClose (isinstance_ConnectionDone reason) s) as [s1 [e|]];
    cbn [factory set_session debug fst snd]; rewrite ?Hd;
    repeat split; reflexivity.
Qed.

(** C10. With a session [s] bound, [connectionLost] calls [s.onClose] exactly
    once, and the [wasClean] it passes is [true] exactly when the reason's
    value is a [ConnectionDone]; every other reason gives [false].  That
    this [wasClean] is the argument the handler runs with shows in what the
    handler does: when the session is about to be released it is in the
    state [onClose wasClean] left it in, and what [onClose wasClean] raised
    is what the debug log reports.  The whole trace is determined: the
    optional log line of the loss, the one call, the optional log line of
    the handler's exception; the method itself returns normally and releases
    the session. *)
Theorem wasClean_iff_ConnectionDone reason p s :
  _session p = Value (Some s) ->
  exists wasClean t,
    (wasClean = true <-> reason = ConnectionDone)
    /\ t = (if debug (factory p)
            then [LogMsg ("WAMP-over-RawSocket connection lost: reason = '"
                          ++ str_reason reason ++ "'")%string]
            else [])
           ++ OnClose wasClean
              :: match snd (onClose wasClean s) with
                 | Some e =>
                     if debug (factory p)
                     then [LogMsg ("ApplicationSession.onClose raised ("
                                   ++ str_exn e ++ ")")%string]
                     else []
                 | None => []
                 end
    /\ connectionLost_notify reason p
       = (Ok tt, set_session (Some (fst (onClose wasClean s))) p, t)
    /\ connectionLost reason p
       = bind (connectionLost_notify reason)
              (fun _ => modify (set_session None)) p
    /\ connectionLost reason p = (Ok tt, set_session None p, t)
    /\ observable t = [OnClose wasClean].
Proof.
  intros H.
  destruct (connectionLost_notify_bound reason p H) as [N [L O]].
  exists (isinstance_ConnectionDone reason). eexists.
  split; [|split; [reflexivity|]].
  - split; [destruct reason; simpl; congruence | now intros ->].
  - split; [exact N|]. split; [|split; [exact L | exact O]].
    rewrite L. unfold bind. rewrite N. unfold modify.
    now rewrite app_nil_r.
Qed.

Lemma deliver_prefix (msgs : list Msg) :
  forall s s' fw r,
    deliver s msgs = (s', fw, r) -> exists rest, msgs = fw ++ rest.
Proof.
  induction msgs as [|m ms IH]; intros s s' fw r D; cbn [deliver] in D.
  - inversion D; subst. now exists [].
  - destruct (onMessage m s) as [s1 [e|]].
    + inversion D; subst. now exists ms.
    + destruct (deliver s1 ms) as [[s2 fw2] r2] eqn:D2.
      inversion D; subst. destruct (IH _ _ _ _ D2) as [rest ->].
      now exists rest.
Qed.

(** ** Failures while a frame is processed *)

(** C2, as the code has it.  When [unserialize] or an [onMessage] handler
    fails while [stringReceived] processes a frame and a session is bound:
    the messages forwarded before the failure stay forwarded and are the first
    messages of the frame, in order; nothing more of that frame is forwarded;
    nothing is raised to the caller; and [abort] asks the transport for
    [abortConnection] when it has one and for [loseConnection] otherwise.  The
    session stays bound ([isOpen] is true) until [connectionLost] is
    delivered, which calls [onClose] with [wasClean = false] for every reason
    other than [ConnectionDone] and then releases the session. *)
Theorem failure_aborts_and_keeps_session payload p s s' fw r e reason :
  _session p = Value (Some s) ->
  deliver s (fst (unserialize (_serializer (factory p)) payload)) = (s', fw, r) ->
  frame_failure s (unserialize (_serializer (factory p)) payload) = Some e ->
  exists t t',
    stringReceived payload p = (Ok tt, set_session (Some s') p, t)
    /\ observable t = map OnMessage fw ++ [abort_event p]
    /\ (exists rest, fst (unserialize (_serializer (factory p)) payload) = fw ++ rest)
    /\ isOpen (set_session (Some s') p) = (Ok true, set_session (Some s') p, [])
    /\ connectionLost reason (set_session (Some s') p)
       = (Ok tt, set_session None p, t')
    /\ observable t' = [OnClose (isinstance_ConnectionDone reason)]
    /\ (reason <> ConnectionDone -> observable t' = [OnClose false]).
Proof.
  intros Hs D F.
  destruct (stringReceived_bound payload p Hs D) as [t [E O]].
  rewrite F in O.
  destruct (@connectionLost_bound reason (set_session (Some s') p) s' eq_refl)
    as [t' [E' O']].
  exists t, t'. repeat split; try assumption.
  - exact (deliver_prefix _ _ D).
  - intros Hr. rewrite O'. now destruct reason.
Qed.

(** ** Outbound messages *)

Lemma send_closed msg p :
  _session p = Value None -> send msg p = (Raise TransportLost, p, []).
Proof.
  intros H. unfold send. erewrite (bind_ok (isOpen_none p H)). reflexivity.
Qed.

Lemma send_serialize_fails msg p s e :
  _session p = Value (Some s) ->
  serialize (_serializer (factory p)) msg = Raise e ->
  exists t,
    send msg p
    = (Raise (SerializationError
                ("Unable to serialize WAMP application payload ("
                 ++ str_exn e ++ ")")%string), p, t)
    /\ observable t = [].
Proof.
  intros H S. unfold send. erewrite (bind_ok (isOpen_bound p H)).
  destruct (when_debug_log ("TX WAMP message: " ++ str_msg msg)%string p)
    as [t0 [E0 O0]].
  cbn [fst snd app]. erewrite (bind_ok E0).
  unfold bind, get, try_except_else, lift, raise. rewrite S. cbn [fst snd app].
  eexists. split; [reflexivity|]. now rewrite app_nil_r.
Qed.

Lemma isOpen_false_inv p p' t :
  isOpen p = (Ok false, p', t) -> _session p = Value None.
Proof.
  unfold isOpen. destruct (_session p) as [|[s|]]; intros E; now inversion E.
Qed.

Lemma isOpen_true_inv p p' t :
  isOpen p = (Ok true, p', t) -> exists s, _session p = Value (Some s).
Proof.
  unfold isOpen. destruct (_session p) as [|[s|]]; intros E; inversion E.
  now exists s.
Qed.

(** C3, as the code has it.  [send] raises [TransportLost] whenever [isOpen]
    answers false, which it does once [connectionLost] has released the
    session.  When [isOpen] answers true and the serializer's [serialize]
    raises, [send] raises [SerializationError] to its caller, makes no call
    on the transport or the session, and leaves the instance as it was, so
    the transport is still open. *)
Theorem send_failures msg p :
  (isOpen p = (Ok false, p, []) -> send msg p = (Raise TransportLost, p, []))
  /\ (forall e,
        isOpen p = (Ok true, p, []) ->
        serialize (_serializer (factory p)) msg = Raise e ->
        exists what t,
          send msg p = (Raise (SerializationError what), p, t)
          /\ observable t = []
          /\ isOpen p = (Ok true, p, [])).
Proof.
  split.
  - intros H. apply send_closed. exact (isOpen_false_inv p H).
  - intros e H S. destruct (isOpen_true_inv p H) as [s Hs].
    destruct (send_serialize_fails msg p Hs S) as [t [E O]].
    eexists. exists t. repeat split; eassumption.
Qed.

(** ** The closed state *)

Lemma close_closed p :
  _session p = Value None -> close p = (Raise TransportLost, p, []).
Proof.
  intros H. unfold close. erewrite (bind_ok (isOpen_none p H)). reflexivity.
Qed.

Lemma abort_closed p :
  _session p = Value None -> abort p = (Raise TransportLost, p, []).
Proof.
  intros H. unfold abort. erewrite (bind_ok (isOpen_none p H)). reflexivity.
Qed.

Lemma close_bound p s :
  _session p = Value (Some s) -> close p = (Ok tt, p, [LoseConnection]).
Proof.
  intros H. unfold close. erewrite (bind_ok (isOpen_bound p H)). reflexivity.
Qed.

Lemma run_closed (cs : list (call Msg)) :
  forall p,
    _session p = Value None ->
    forallb is_transport_call cs = true ->
    run cs p = (map closed_answer cs, p, []).
Proof.
  induction cs as [|c cs IH]; intros p H Hcs; [reflexivity|].
  cbn [forallb] in Hcs. apply andb_prop in Hcs. destruct Hcs as [Hc Hcs].
  cbn [run map].
  assert (E : perform c p = (closed_answer c, p, [])).
  { destruct c; try discriminate; cbn [perform closed_answer].
    - now rewrite (send_closed _ p H).
    - now rewrite (isOpen_none p H).
    - now rewrite (close_closed p H).
    - now rewrite (abort_closed p H). }
  rewrite E. now rewrite (IH p H Hcs).
Qed.

(** C4, as the code has it.  After [connectionLost] the instance is closed
    for good: [isOpen] answers false and every [send], [close] and [abort]
    raises [TransportLost], however many such calls follow, none of them
    touching the transport or the instance.  [close] and [abort] themselves
    only ask the transport to disconnect and leave the instance as it is,
    still open, until the connection loss is delivered. *)
Theorem closed_after_connectionLost reason p (cs : list (call Msg)) :
  forallb is_transport_call cs = true ->
  (exists t,
      connectionLost reason p = (Ok tt, set_session None p, t)
      /\ run cs (set_session None p)
         = (map closed_answer cs, set_session None p, []))
  /\ (forall (q : WampRawSocketProtocol Msg Session Peer) s,
        _session q = Value (Some s) ->
        close q = (Ok tt, q, [LoseConnection])
        /\ abort q = (Ok tt, q, [abort_event q])
        /\ isOpen q = (Ok true, q, [])).
Proof.
  intros Hcs. split.
  - assert (E : exists t, connectionLost reason p = (Ok tt, set_session None p, t)).
    { destruct (_session p) as [|[s|]] eqn:H.
      - destruct (@connectionLost_unbound reason p (or_introl H)) as [t [E _]].
        now exists t.
      - destruct (connectionLost_bound reason p H) as [t [E _]]. now exists t.
      - destruct (@connectionLost_unbound reason p (or_intror H)) as [t [E _]].
        now exists t. }
    destruct E as [t E]. exists t. split; [exact E|].
    now apply run_closed.
  - intros q s H. repeat split.
    + exact (close_bound q H).
    + exact (abort_bound q H).
    + exact (isOpen_bound q H).
Qed.

(** ** Connection establishment *)

(** C5, as the code has it.  Once the constructor has returned a session,
    [connectionMade] binds it and calls [onOpen]; if [onOpen] raises, [abort]
    follows at once ([abortConnection] on a transport that has it,
    [loseConnection] otherwise) and [connectionMade] returns normally.  It
    calls neither [onMessage] nor [onClose], and the session is bound
    afterwards, so [isOpen] answers true, whether or not [onOpen] raised. *)
Theorem connectionMade_binds_session p s s1 r :
  call0 (_factory (factory p)) = Ok s ->
  onOpen s = (s1, r) ->
  exists t,
    connectionMade p
    = (Ok tt, set_session (Some s1) (set_peer (peer_of p) p), t)
    /\ observable t
       = OnOpen :: match r with Some _ => [abort_event p] | None => [] end
    /\ isOpen (set_session (Some s1) (set_peer (peer_of p) p))
       = (Ok true, set_session (Some s1) (set_peer (peer_of p) p), []).
Proof.
  intros Hc Ho.
  unfold connectionMade, abort, isOpen, bind, get, modify, try_except,
    try_except_else, lift, session_call, when_debug, log_msg, emit, ret, raise,
    peer_of, abort_event.
  destruct (debug (factory p)) eqn:Hd; cbn beta iota;
    destruct (getPeer (transport p)) eqn:Hp; cbn beta iota;
    rewrite Hc; cbn [_session set_session set_peer]; rewrite Ho;
    destruct r as [e|];
    cbn [factory transport _session set_session set_peer]; rewrite ?Hd;
    cbn [factory transport _session set_session set_peer];
    destruct (has_abortConnection (transport p));
    eexists; repeat split; reflexivity.
Qed.

(** The constructor itself raising: the handler's [abort] reads [_session],
    which was never assigned, and [connectionMade] ends with that
    [AttributeError] without any call on the transport. *)
Lemma connectionMade_constructor_raises p e :
  _session p = Unset ->
  call0 (_factory (factory p)) = Raise e ->
  exists t,
    connectionMade p
    = (Raise (AttributeError "_session"), set_peer (peer_of p) p, t)
    /\ observable t = [].
Proof.
  intros Hs Hc.
  unfold connectionMade, abort, isOpen, bind, get, modify, try_except,
    try_except_else, lift, session_call, when_debug, log_msg, emit, ret, raise,
    peer_of.
  destruct (debug (factory p)) eqn:Hd; cbn beta iota;
    destruct (getPeer (transport p)); cbn beta iota;
    rewrite Hc; cbn -[String.append]; rewrite ?Hd; cbn -[String.append];
    rewrite Hs;
    eexists; split; reflexivity.
Qed.

(** ** The factory *)

(** C9, as the code has it.  The constructor rejects exactly the objects that
    are not callable.  A callable that needs arguments is accepted; calling
    it with none, as [connectionMade] does for every connection, raises
    [TypeError]. *)
Theorem factory_requires_callable
    (f : pyobject Session) (ser : ISerializer Msg) (d : bool) :
  (callable f = false ->
     WampRawSocketFactory__init__ f ser d = Raise AssertionError)
  /\ (callable f = true ->
        WampRawSocketFactory__init__ f ser d
        = Ok {| _factory := f; _serializer := ser; debug := d |})
  /\ (forall n body,
        f = Callable (S n) body ->
        WampRawSocketFactory__init__ f ser d
        = Ok {| _factory := f; _serializer := ser; debug := d |}
        /\ exists what, call0 f = Raise (TypeError what)).
Proof.
  unfold WampRawSocketFactory__init__. repeat split.
  - now intros ->.
  - now intros ->.
  - now subst.
  - subst. eexists. reflexivity.
Qed.

(** ** The debug flag *)

Lemma same_but_debug_inv p1 p2 :
  same_but_debug p1 p2 -> p2 = with_debug (debug (factory p2)) p1.
Proof.
  unfold same_but_debug, with_debug.
  destruct p1 as [[f1 s1 d1] t1 pe1 se1 u1], p2 as [[f2 s2 d2] t2 pe2 se2 u2].
  cbn. intros E. now inversion E.
Qed.

Ltac blind_done :=
  cbn; repeat split; try reflexivity; auto.

Ltac blind_start :=
  let p1 := fresh "p1" in
  let p2 := fresh "p2" in
  let H := fresh "H" in
  intros p1 p2 H; unfold same_behaviour.

Lemma blind_ret {A} (R : A -> A -> Prop) a b :
  R a b -> debug_blind R (@ret Msg Session Peer A a) (ret b).
Proof. intros Hab. blind_start. blind_done. Qed.

Lemma blind_raise {A} (R : A -> A -> Prop) e :
  debug_blind R (@raise Msg Session Peer A e) (raise e).
Proof. blind_start. blind_done. Qed.

Lemma blind_emit (ev : event Msg) :
  debug_blind eq (@emit Msg Session Peer ev) (emit ev).
Proof. blind_start. blind_done. Qed.

Lemma blind_lift {A} (r : result A) :
  debug_blind eq (@lift Msg Session Peer A r) (lift r).
Proof. blind_start. destruct r; blind_done. Qed.

Lemma blind_get : debug_blind same_but_debug (@get Msg Session Peer) get.
Proof. blind_start. blind_done. Qed.

Lemma blind_modify (f : WampRawSocketProtocol Msg Session Peer -> _) :
  (forall p1 p2, same_but_debug p1 p2 -> same_but_debug (f p1) (f p2)) ->
  debug_blind eq (modify f) (modify f).
Proof. intros Hf. blind_start. blind_done. Qed.

Lemma blind_bind {A B} (R : A -> A -> Prop) (R' : B -> B -> Prop)
      (m1 m2 : @M Msg Session Peer A) (k1 k2 : A -> @M Msg Session Peer B) :
  debug_blind R m1 m2 ->
  (forall a b, R a b -> debug_blind R' (k1 a) (k2 b)) ->
  debug_blind R' (bind m1 k1) (bind m2 k2).
Proof.
  intros Hm Hk. blind_start. unfold bind.
  destruct (Hm p1 p2 H) as [Hr [Hp Ht]].
  destruct (m1 p1) as [[[a|e1] q1] t1], (m2 p2) as [[[b|e2] q2] t2];
    cbn [fst snd result_rel] in Hr, Hp, Ht; try contradiction.
  - destruct (Hk a b Hr q1 q2 Hp) as [Hr' [Hp' Ht']].
    destruct (k1 a q1) as [[r1 q1'] t1'], (k2 b q2) as [[r2 q2'] t2'].
    cbn [fst snd] in *. repeat split; try assumption.
    now rewrite !observable_app, Ht, Ht'.
  - blind_done.
Qed.

Lemma blind_try_except_else {A B} (R : A -> A -> Prop) (R' : B -> B -> Prop)
      (m1 m2 : @M Msg Session Peer A) (h1 h2 : exn -> @M Msg Session Peer B) (k1 k2 : A -> @M Msg Session Peer B) :
  debug_blind R m1 m2 ->
  (forall e, debug_blind R' (h1 e) (h2 e)) ->
  (forall a b, R a b -> debug_blind R' (k1 a) (k2 b)) ->
  debug_blind R' (try_except_else m1 h1 k1) (try_except_else m2 h2 k2).
Proof.
  intros Hm Hh Hk. blind_start. unfold try_except_else.
  destruct (Hm p1 p2 H) as [Hr [Hp Ht]].
  destruct (m1 p1) as [[[a|e1] q1] t1], (m2 p2) as [[[b|e2] q2] t2];
    cbn [fst snd result_rel] in Hr, Hp, Ht; try contradiction.
  - destruct (Hk a b Hr q1 q2 Hp) as [Hr' [Hp' Ht']].
    destruct (k1 a q1) as [[r1 q1'] t1'], (k2 b q2) as [[r2 q2'] t2'].
    cbn [fst snd] in *. repeat split; try assumption.
    now rewrite !observable_app, Ht, Ht'.
  - subst e2. destruct (Hh e1 q1 q2 Hp) as [Hr' [Hp' Ht']].
    destruct (h1 e1 q1) as [[r1 q1'] t1'], (h2 e1 q2) as [[r2 q2'] t2'].
    cbn [fst snd] in *. repeat split; try assumption.
    now rewrite !observable_app, Ht, Ht'.
Qed.

Lemma blind_try_except {A} (m1 m2 : @M Msg Session Peer A)
      (h1 h2 : exn -> @M Msg Session Peer A) :
  debug_blind eq m1 m2 ->
  (forall e, debug_blind eq (h1 e) (h2 e)) ->
  debug_blind eq (try_except m1 h1) (try_except m2 h2).
Proof.
  intros Hm Hh. unfold try_except.
  apply blind_try_except_else with (R := eq); try assumption.
  intros a b ->. now apply blind_ret.
Qed.

(** The one place the flag is read: a log line or nothing. *)
Lemma blind_when_debug_log line :
  debug_blind eq (@when_debug Msg Session Peer (log_msg line))
              (when_debug (log_msg line)).
Proof.
  blind_start. unfold when_debug, log_msg, emit, ret.
  destruct (debug (factory p1)), (debug (factory p2)); blind_done.
Qed.

Lemma blind_session_call (h : Session -> Session * option exn) (ev : event Msg) :
  debug_blind eq (@session_call Msg Session Peer h ev) (session_call h ev).
Proof.
  blind_start. rewrite (same_but_debug_inv H).
  unfold session_call. cbn [_session with_debug].
  destruct (_session p1) as [|[s|]]; [blind_done| |blind_done].
  destruct (h s) as [s' [e|]]; blind_done.
Qed.

Lemma blind_for_each {A} (body : A -> @M Msg Session Peer unit) (xs : list A) :
  (forall x, debug_blind eq (body x) (body x)) ->
  debug_blind eq (for_each xs body) (for_each xs body).
Proof.
  intros Hb. induction xs as [|x xs IH]; cbn [for_each].
  - now apply blind_ret.
  - apply blind_bind with (R := eq); [apply Hb | intros; exact IH].
Qed.

Create HintDb blind.
#[local] Hint Resolve blind_raise blind_emit blind_lift blind_get
  blind_when_debug_log blind_for_each blind_session_call : blind.
#[local] Hint Extern 1 (debug_blind _ (ret _) (ret _)) =>
  apply blind_ret; reflexivity : blind.

Lemma blind_isOpen : debug_blind eq (@isOpen Msg Session Peer) isOpen.
Proof.
  blind_start. rewrite (same_but_debug_inv H).
  unfold isOpen. cbn [_session with_debug].
  destruct (_session p1) as [|[s|]]; blind_done.
Qed.

Lemma blind_close : debug_blind eq (@close Msg Session Peer) close.
Proof.
  unfold close. apply blind_bind with (R := eq); [apply blind_isOpen|].
  intros a b ->. destruct b; auto with blind.
Qed.

Lemma blind_abort : debug_blind eq (@abort Msg Session Peer) abort.
Proof.
  unfold abort. apply blind_bind with (R := eq); [apply blind_isOpen|].
  intros a b ->. destruct b; auto with blind.
  apply blind_bind with (R := same_but_debug); auto with blind.
  intros q1 q2 Hq. rewrite (same_but_debug_inv Hq). cbn [transport with_debug].
  destruct (has_abortConnection (transport q1)); auto with blind.
Qed.

#[local] Hint Resolve blind_isOpen blind_close blind_abort : blind.

Ltac blind_seq :=
  apply blind_bind with (R := eq); [auto with blind | intros ? ? ->].

Lemma blind_log_then (line : string) (m : @M Msg Session Peer unit) :
  debug_blind eq m m ->
  debug_blind eq (bind (when_debug (log_msg line)) (fun _ => m))
              (bind (when_debug (log_msg line)) (fun _ => m)).
Proof. intros Hm. blind_seq. exact Hm. Qed.

#[local] Hint Resolve blind_log_then : blind.

Lemma blind_connectionMade :
  debug_blind eq (@connectionMade Msg Session Peer fmt handler) connectionMade.
Proof.
  unfold connectionMade. blind_seq.
  apply blind_bind with (R := same_but_debug); auto with blind.
  intros q1 q2 Hq. rewrite (same_but_debug_inv Hq).
  cbn [transport factory _factory with_debug].
  apply blind_bind with (R := eq).
  - destruct (getPeer (transport q1)); apply blind_modify;
      intros r1 r2 Hr; rewrite (same_but_debug_inv Hr); reflexivity.
  - intros _ _ _. apply blind_try_except.
    + blind_seq. apply blind_bind with (R := eq); auto with blind.
      apply blind_modify.
      intros r1 r2 Hr; rewrite (same_but_debug_inv Hr); reflexivity.
    + intros e. auto with blind.
Qed.

Lemma blind_connectionLost reason :
  debug_blind eq (@connectionLost Msg Session Peer handler reason)
              (connectionLost reason).
Proof.
  unfold connectionLost. blind_seq. apply blind_bind with (R := eq).
  - apply blind_try_except; auto with blind.
  - intros _ _ _. apply blind_modify.
    intros r1 r2 Hr; rewrite (same_but_debug_inv Hr); reflexivity.
Qed.

Lemma blind_forward msg :
  debug_blind eq (@forward Msg Session Peer fmt handler msg) (forward msg).
Proof. unfold forward. auto with blind. Qed.

Lemma blind_stringReceived payload :
  debug_blind eq (@stringReceived Msg Session Peer fmt handler payload)
              (stringReceived payload).
Proof.
  unfold stringReceived. blind_seq. apply blind_try_except.
  - apply blind_bind with (R := same_but_debug); auto with blind.
    intros q1 q2 Hq. rewrite (same_but_debug_inv Hq).
    cbn [factory _serializer with_debug]. unfold iterate.
    apply blind_bind with (R := eq).
    + apply blind_for_each. apply blind_forward.
    + intros _ _ _.
      destruct (snd (unserialize (_serializer (factory q1)) payload));
        auto with blind.
  - intros e. destruct e; auto with blind.
Qed.

Lemma blind_sendString payload :
  debug_blind eq (@sendString Msg Session Peer payload) (sendString payload).
Proof. unfold sendString. destruct (_ <? _)%N; auto with blind. Qed.

Lemma blind_send msg :
  debug_blind eq (@send Msg Session Peer fmt msg) (send msg).
Proof.
  unfold send. blind_seq. destruct b; auto with blind.
  blind_seq. apply blind_bind with (R := same_but_debug); auto with blind.
  intros q1 q2 Hq. rewrite (same_but_debug_inv Hq).
  cbn [factory _serializer with_debug].
  apply blind_try_except_else with (R := eq); auto with blind.
  intros a r ->. apply blind_bind with (R := eq); auto with blind.
  apply blind_sendString.
Qed.

Lemma blind_dataReceived data :
  debug_blind eq (@dataReceived Msg Session Peer fmt handler data)
              (dataReceived data).
Proof.
  unfold dataReceived.
  apply blind_bind with (R := same_but_debug); auto with blind.
  intros q1 q2 Hq. rewrite (same_but_debug_inv Hq).
  cbn [_unprocessed with_debug].
  destruct (Framing.feed (_unprocessed q1) data) as [payloads rest].
  apply blind_bind with (R := eq).
  - apply blind_modify.
    intros r1 r2 Hr; rewrite (same_but_debug_inv Hr); reflexivity.
  - intros _ _ _. apply blind_for_each. apply blind_stringReceived.
Qed.

Lemma perform_blind (c : call Msg) p1 p2 :
  same_but_debug p1 p2 ->
  fst (fst (perform c p1)) = fst (fst (perform c p2))
  /\ same_but_debug (snd (fst (perform c p1))) (snd (fst (perform c p2)))
  /\ observable (snd (perform c p1)) = observable (snd (perform c p2)).
Proof.
  intros H.
  assert (U : forall m : @M Msg Session Peer unit,
             debug_blind eq m m ->
             let x := match m p1 with (r, p', t) => (answer_unit r, p', t) end in
             let y := match m p2 with (r, p', t) => (answer_unit r, p', t) end in
             fst (fst x) = fst (fst y)
             /\ same_but_debug (snd (fst x)) (snd (fst y))
             /\ observable (snd x) = observable (snd y)).
  { intros m Hm. destruct (Hm p1 p2 H) as [Hr [Hp Ht]].
    destruct (m p1) as [[[[]|e1] q1] t1], (m p2) as [[[[]|e2] q2] t2];
      cbn [fst snd result_rel answer_unit] in *; try contradiction;
      repeat split; try assumption. now subst. }
  destruct c; cbn [perform].
  - apply U, blind_connectionMade.
  - apply U, blind_connectionLost.
  - apply U, blind_dataReceived.
  - apply U, blind_stringReceived.
  - apply U, blind_send.
  - destruct (blind_isOpen H) as [Hr [Hp Ht]].
    destruct (isOpen p1) as [[[b1|e1] q1] t1], (isOpen p2) as [[[b2|e2] q2] t2];
      cbn [fst snd result_rel answer_bool] in *; try contradiction;
      repeat split; try assumption; now subst.
  - apply U, blind_close.
  - apply U, blind_abort.
Qed.

Lemma run_blind (cs : list (call Msg)) :
  forall p1 p2,
    same_but_debug p1 p2 ->
    fst (fst (run cs p1)) = fst (fst (run cs p2))
    /\ same_but_debug (snd (fst (run cs p1))) (snd (fst (run cs p2)))
    /\ observable (snd (run cs p1)) = observable (snd (run cs p2)).
Proof.
  induction cs as [|c cs IH]; intros p1 p2 H; cbn [run].
  - repeat split. exact H.
  - destruct (perform_blind c H) as [Ha [Hp Ht]].
    destruct (perform c p1) as [[a1 q1] t1], (perform c p2) as [[a2 q2] t2].
    cbn [fst snd] in Ha, Hp, Ht.
    destruct (IH q1 q2 Hp) as [Ha' [Hp' Ht']].
    destruct (run cs q1) as [[ans1 q1'] t1'], (run cs q2) as [[ans2 q2'] t2'].
    cbn [fst snd] in *. repeat split.
    + now rewrite Ha, Ha'.
    + exact Hp'.
    + now rewrite !observable_app, Ht, Ht'.
Qed.

Lemma quiet_ret {A} (a : A) : quiet (@ret Msg Session Peer A a).
Proof. intros p Hd. now split. Qed.

Lemma quiet_raise {A} e : quiet (@raise Msg Session Peer A e).
Proof. intros p Hd. now split. Qed.

Lemma quiet_lift {A} (r : result A) : quiet (@lift Msg Session Peer A r).
Proof. intros p Hd. now split. Qed.

Lemma quiet_get : quiet (@get Msg Session Peer).
Proof. intros p Hd. now split. Qed.

Lemma quiet_emit (ev : event Msg) :
  is_log ev = false -> quiet (@emit Msg Session Peer ev).
Proof. intros Hev p Hd. cbn. now rewrite Hev. Qed.

Lemma quiet_modify (f : WampRawSocketProtocol Msg Session Peer -> _) :
  (forall p, factory (f p) = factory p) -> quiet (modify f).
Proof. intros Hf p Hd. cbn. now rewrite Hf. Qed.

Lemma quiet_when_debug (m : @M Msg Session Peer unit) : quiet (when_debug m).
Proof. intros p Hd. unfold when_debug. rewrite Hd. now split. Qed.

Lemma quiet_bind {A B} (m : @M Msg Session Peer A) (k : A -> @M Msg Session Peer B) :
  quiet m -> (forall a, quiet (k a)) -> quiet (bind m k).
Proof.
  intros Hm Hk p Hd. unfold bind. destruct (Hm p Hd) as [Hl Hd1].
  destruct (m p) as [[[a|e] p1] t1]; cbn [fst snd] in *; [|now split].
  destruct (Hk a p1 Hd1) as [Hl2 Hd2].
  destruct (k a p1) as [[r p2] t2]; cbn [fst snd] in *.
  split; [|exact Hd2]. now rewrite filter_app, Hl, Hl2.
Qed.

Lemma quiet_try_except_else {A B} (m : @M Msg Session Peer A)
      (h : exn -> @M Msg Session Peer B) (k : A -> @M Msg Session Peer B) :
  quiet m -> (forall e, quiet (h e)) -> (forall a, quiet (k a)) ->
  quiet (try_except_else m h k).
Proof.
  intros Hm Hh Hk p Hd. unfold try_except_else. destruct (Hm p Hd) as [Hl Hd1].
  destruct (m p) as [[[a|e] p1] t1]; cbn [fst snd] in *.
  - destruct (Hk a p1 Hd1) as [Hl2 Hd2].
    destruct (k a p1) as [[r p2] t2]; cbn [fst snd] in *.
    split; [|exact Hd2]. now rewrite filter_app, Hl, Hl2.
  - destruct (Hh e p1 Hd1) as [Hl2 Hd2].
    destruct (h e p1) as [[r p2] t2]; cbn [fst snd] in *.
    split; [|exact Hd2]. now rewrite filter_app, Hl, Hl2.
Qed.

Lemma quiet_try_except {A} (m : @M Msg Session Peer A)
      (h : exn -> @M Msg Session Peer A) :
  quiet m -> (forall e, quiet (h e)) -> quiet (try_except m h).
Proof.
  intros Hm Hh. apply quiet_try_except_else; try assumption.
  intros a. apply quiet_ret.
Qed.

Lemma quiet_for_each {A} (body : A -> @M Msg Session Peer unit) (xs : list A) :
  (forall x, quiet (body x)) -> quiet (for_each xs body).
Proof.
  intros Hb. induction xs as [|x xs IH]; cbn [for_each].
  - apply quiet_ret.
  - apply quiet_bind; [apply Hb | intros _; exact IH].
Qed.

Lemma quiet_session_call (h : Session -> Session * option exn) (ev : event Msg) :
  is_log ev = false -> quiet (@session_call Msg Session Peer h ev).
Proof.
  intros Hev p Hd. unfold session_call.
  destruct (_session p) as [|[s|]]; try now split.
  destruct (h s) as [s' r]. cbn. now rewrite Hev.
Qed.

Lemma quiet_isOpen : quiet (@isOpen Msg Session Peer).
Proof.
  intros p Hd. unfold isOpen. destruct (_session p) as [|[s|]]; now split.
Qed.

Create HintDb quiet.
#[local] Hint Resolve quiet_ret quiet_raise quiet_lift quiet_get
  quiet_when_debug quiet_for_each quiet_isOpen : quiet.
#[local] Hint Extern 1 (quiet (emit _)) =>
  apply quiet_emit; reflexivity : quiet.
#[local] Hint Extern 1 (quiet (session_call _ _)) =>
  apply quiet_session_call; reflexivity : quiet.
#[local] Hint Extern 1 (quiet (modify _)) =>
  apply quiet_modify; reflexivity : quiet.
#[local] Hint Extern 2 (quiet (bind _ _)) =>
  apply quiet_bind; [|intro] : quiet.
#[local] Hint Extern 2 (quiet (try_except _ _)) =>
  apply quiet_try_except; [|intro] : quiet.

Lemma quiet_close : quiet (@close Msg Session Peer).
Proof. unfold close. apply quiet_bind; [auto with quiet|]. intros []; auto with quiet. Qed.

Lemma quiet_abort : quiet (@abort Msg Session Peer).
Proof.
  unfold abort. apply quiet_bind; [auto with quiet|].
  intros []; auto with quiet.
  apply quiet_bind; [auto with quiet|]. intros q.
  destruct (has_abortConnection (transport q)); auto with quiet.
Qed.

#[local] Hint Resolve quiet_close quiet_abort : quiet.

Lemma quiet_connectionMade :
  quiet (@connectionMade Msg Session Peer fmt handler).
Proof.
  unfold connectionMade. apply quiet_bind; [auto with quiet|]. intros _.
  apply quiet_bind; [auto with quiet|]. intros q.
  apply quiet_bind.
  - destruct (getPeer (transport q)); auto with quiet.
  - intros _. auto 6 with quiet.
Qed.

Lemma quiet_connectionLost reason :
  quiet (@connectionLost Msg Session Peer handler reason).
Proof. unfold connectionLost. auto 6 with quiet. Qed.

Lemma quiet_stringReceived payload :
  quiet (@stringReceived Msg Session Peer fmt handler payload).
Proof.
  unfold stringReceived. apply quiet_bind; [auto with quiet|]. intros _.
  apply quiet_try_except.
  - apply quiet_bind; [auto with quiet|]. intros q. unfold iterate.
    apply quiet_bind.
    + apply quiet_for_each. intros msg. unfold forward. auto with quiet.
    + intros _. destruct (snd _); auto with quiet.
  - intros e. destruct e; auto with quiet.
Qed.

Lemma quiet_send msg : quiet (@send Msg Session Peer fmt msg).
Proof.
  unfold send. apply quiet_bind; [auto with quiet|].
  intros []; auto with quiet.
  apply quiet_bind; [auto with quiet|]. intros _.
  apply quiet_bind; [auto with quiet|]. intros q.
  apply quiet_try_except_else; auto with quiet.
  intros r. apply quiet_bind; [|auto with quiet].
  unfold sendString. destruct (_ <? _)%N; auto with quiet.
Qed.

Lemma quiet_dataReceived data :
  quiet (@dataReceived Msg Session Peer fmt handler data).
Proof.
  unfold dataReceived. apply quiet_bind; [auto with quiet|]. intros q.
  destruct (Framing.feed (_unprocessed q) data) as [payloads rest].
  apply quiet_bind; [auto with quiet|]. intros _.
  apply quiet_for_each. apply quiet_stringReceived.
Qed.

Lemma run_quiet (cs : list (call Msg)) :
  forall p,
    debug (factory p) = false -> filter is_log (snd (run cs p)) = [].
Proof.
  induction cs as [|c cs IH]; intros p Hd; cbn [run]; [reflexivity|].
  assert (Q : filter is_log (snd (perform c p)) = []
              /\ debug (factory (snd (fst (perform c p)))) = false).
  { assert (U : forall m : @M Msg Session Peer unit,
               quiet m ->
               let x := match m p with (r, p', t) => (answer_unit r, p', t) end in
               filter is_log (snd x) = []
               /\ debug (factory (snd (fst x))) = false).
    { intros m Hm. destruct (Hm p Hd) as [Hl Hd'].
      now destruct (m p) as [[r q] t]. }
    destruct c; cbn [perform];
      try (apply U;
           first [ apply quiet_connectionMade | apply quiet_connectionLost
                 | apply quiet_dataReceived | apply quiet_stringReceived
                 | apply quiet_send | apply quiet_close | apply quiet_abort ]).
    destruct (quiet_isOpen p Hd) as [Hl Hd'].
    now destruct (isOpen p) as [[r q] t]. }
  destruct Q as [Hl Hd'].
  destruct (perform c p) as [[a q] t]. cbn [fst snd] in *.
  specialize (IH q Hd').
  destruct (run cs q) as [[ans q'] t']. cbn [fst snd] in *.
  now rewrite filter_app, Hl, IH.
Qed.

(** C8. Two runs of the same calls on instances that differ only in the
    factory's debug flag cannot be told apart by anything but the log: every
    call returns or raises the same, the same calls reach the session and
    the transport in the same order (messages dispatched, bytes written,
    disconnects), and the instances end up equal but for the flag.  With the
    flag off nothing is logged at all. *)
Theorem debug_flag_changes_only_the_log (cs : list (call Msg)) p (d1 d2 : bool) :
  fst (fst (run cs (with_debug d1 p))) = fst (fst (run cs (with_debug d2 p)))
  /\ observable (snd (run cs (with_debug d1 p)))
     = observable (snd (run cs (with_debug d2 p)))
  /\ same_but_debug (snd (fst (run cs (with_debug d1 p))))
                    (snd (fst (run cs (with_debug d2 p))))
  /\ filter is_log (snd (run cs (with_debug false p))) = [].
Proof.
  destruct (@run_blind cs (with_debug d1 p) (with_debug d2 p) eq_refl)
    as [Ha [Hp Ht]].
  repeat split; try assumption.
  now apply run_quiet.
Qed.

End ProtocolFacts.

(** * Concrete runs *)

Lemma received_messages_forwarded_in_order_witness :
  exists t,
    run (map CallDataReceived
           [[x00; x00; x00; x02; "a"]; ["b"; x00; x00]; [x00; x01; "c"]]%byte)
        (Demo.opened Demo.tcp true)
    = ([Returned; Returned; Returned],
       set_session
         (Some {| Demo.handled := ["a"; "b"; "c"]%byte; Demo.closed_with := None;
                  Demo.open_fails := false; Demo.close_fails := false |})
         (Demo.opened Demo.tcp true), t)
    /\ observable t = [OnMessage "a"; OnMessage "b"; OnMessage "c"]%byte.
Proof.
  refine (proj2 (@received_messages_forwarded_in_order _ _ _ _ _
                   (Demo.opened Demo.tcp true) (Demo.new_session false false)
                   _ _ [["a"; "b"]; ["c"]]%byte _ _ _)
                [[x00; x00; x00; x02; "a"]; ["b"; x00; x00]; [x00; x01; "c"]]%byte
                _ _ _).
  - reflexivity.
  - repeat constructor.
  - reflexivity.
  - reflexivity.
  - repeat constructor.
  - reflexivity.
Defined.

Lemma connectionLost_always_releases_session_witness :
  exists t,
    connectionLost ConnectionLost
      (set_session (Some (Demo.new_session false true)) (Demo.opened Demo.tcp false))
    = (Ok tt, set_session None (Demo.opened Demo.tcp false), t)
    /\ filter is_log t = [].
Proof.
  destruct (@connectionLost_always_releases_session _ _ _ _ ConnectionLost
              (set_session (Some (Demo.new_session false true))
                 (Demo.opened Demo.tcp false))) as [t [E [_ Q]]].
  exists t. split; [exact E | exact (Q eq_refl)].
Defined.

Lemma wasClean_iff_ConnectionDone_witness :
  let s := Demo.new_session false true in
  let p := set_session (Some s) (Demo.opened Demo.tcp true) in
  exists wasClean t,
    (wasClean = true <-> ConnectionAborted = ConnectionDone)
    /\ t = (if debug (factory p)
            then [LogMsg ("WAMP-over-RawSocket connection lost: reason = '"
                          ++ str_reason ConnectionAborted ++ "'")%string]
            else [])
           ++ OnClose wasClean
              :: match snd (onClose wasClean s) with
                 | Some e =>
                     if debug (factory p)
                     then [LogMsg ("ApplicationSession.onClose raised ("
                                   ++ str_exn e ++ ")")%string]
                     else []
                 | None => []
                 end
    /\ connectionLost_notify ConnectionAborted p
       = (Ok tt, set_session (Some (fst (onClose wasClean s))) p, t)
    /\ connectionLost ConnectionAborted p
       = bind (connectionLost_notify ConnectionAborted)
              (fun _ => modify (set_session None)) p
    /\ connectionLost ConnectionAborted p = (Ok tt, set_session None p, t)
    /\ observable t = [OnClose wasClean].
Proof.
  exact (@wasClean_iff_ConnectionDone _ _ _ _ ConnectionAborted
           (set_session (Some (Demo.new_session false true))
              (Demo.opened Demo.tcp true))
           (Demo.new_session false true) eq_refl).
Defined.

(** C2 as stated fails: after the decode failure in the first frame the
    transport is only asked to disconnect (gracefully, where it has no
    [abortConnection]); the instance still answers [isOpen] with true and the
    next frame's message is forwarded. *)
Lemma failure_keeps_dispatching :
  (let '(ans, _, t) :=
     run [CallStringReceived ["a"; x00]; CallIsOpen; CallStringReceived ["b"]]%byte
         (Demo.opened Demo.tcp false) in (ans, t))
  = ([Returned; ReturnedBool true; Returned],
     [OnMessage "a"; AbortConnection; OnMessage "b"]%byte)
  /\ (let '(ans, _, t) :=
        run [CallDataReceived [x00; x00; x00; x02; "a"; x00;
                               x00; x00; x00; x01; "b"]; CallIsOpen]%byte
            (Demo.opened Demo.process false) in (ans, t))
     = ([Returned; ReturnedBool true],
        [OnMessage "a"; LoseConnection; OnMessage "b"]%byte).
Proof. split; reflexivity. Qed.

Lemma failure_aborts_and_keeps_session_witness :
  exists t t' : list (event byte),
    stringReceived ["a"; "!"; "b"]%byte (Demo.opened Demo.tcp true)
    = (Ok tt,
       set_session
         (Some {| Demo.handled := ["a"]%byte; Demo.closed_with := None;
                  Demo.open_fails := false; Demo.close_fails := false |})
         (Demo.opened Demo.tcp true), t)
    /\ observable t = [OnMessage "a"; OnMessage "!"; AbortConnection]%byte
    /\ observable t' = [OnClose false].
Proof.
  assert (Hs : _session (Demo.opened Demo.tcp true)
               = Value (Some (Demo.new_session false false))) by reflexivity.
  assert (D : deliver (Demo.new_session false false)
                (fst (unserialize (_serializer (factory (Demo.opened Demo.tcp true)))
                        ["a"; "!"; "b"]%byte))
              = ({| Demo.handled := ["a"]%byte; Demo.closed_with := None;
                    Demo.open_fails := false; Demo.close_fails := false |},
                 ["a"; "!"]%byte, Some (OtherException "handler failed")))
    by reflexivity.
  assert (F : frame_failure (Demo.new_session false false)
                (unserialize (_serializer (factory (Demo.opened Demo.tcp true)))
                   ["a"; "!"; "b"]%byte)
              = Some (OtherException "handler failed")) by reflexivity.
  destruct (failure_aborts_and_keeps_session _ _ ConnectionAborted Hs D F)
    as [t [t' [E [O [_ [_ [_ [_ O']]]]]]]].
  exists t, t'. split; [exact E|]. split; [exact O|].
  apply O'. discriminate.
Defined.

(** C3 as stated fails: an instance that is not open need not answer [send]
    with [TransportLost].  After [close] or [abort] the session is still
    bound, and [send] serializes and writes as before.  And until
    [connectionMade] has assigned [_session] the attribute does not exist,
    so [isOpen], and [send] with it, raise [AttributeError]; the same holds
    after [connectionMade] on a factory whose session constructor raised. *)
Lemma send_outside_the_open_state :
  (let '(ans, _, t) :=
     run [CallClose; CallSend "z"; CallAbort; CallSend "y"]%byte
         (Demo.opened Demo.tcp false) in (ans, t))
  = ([Returned; Returned; Returned; Returned],
     [LoseConnection;
      TransportWrite [x00; x00; x00; x01; "z"];
      AbortConnection;
      TransportWrite [x00; x00; x00; x01; "y"]]%byte)
  /\ (let '(ans, _, t) :=
        run [CallIsOpen; CallSend "z"]%byte
            (buildProtocol
               (Demo.demo_factory
                  (Callable 0 (Ok (Demo.new_session false false))) false)
               Demo.tcp) in (ans, t))
     = ([Raised (AttributeError "_session");
         Raised (AttributeError "_session")],
        [])
  /\ (let '(ans, _, t) :=
        run [CallConnectionMade; CallIsOpen; CallSend "z"]%byte
            (buildProtocol
               (Demo.demo_factory
                  (Callable 0 (Raise (OtherException "no session"))) false)
               Demo.tcp) in (ans, t))
     = ([Raised (AttributeError "_session");
         Raised (AttributeError "_session");
         Raised (AttributeError "_session")],
        []).
Proof. repeat split; reflexivity. Qed.

Lemma send_failures_witness :
  send "z"%byte (set_session None (Demo.opened Demo.tcp false))
  = (Raise TransportLost, set_session None (Demo.opened Demo.tcp false), [])
  /\ exists what t,
      send x00 (Demo.opened Demo.tcp true)
      = (Raise (SerializationError what), Demo.opened Demo.tcp true, t)
      /\ observable t = []
      /\ isOpen (Demo.opened Demo.tcp true)
         = (Ok true, Demo.opened Demo.tcp true, []).
Proof.
  split.
  - exact (proj1 (send_failures "z"%byte
                    (set_session None (Demo.opened Demo.tcp false))) eq_refl).
  - exact (proj2 (send_failures x00 (Demo.opened Demo.tcp true))
             (OtherException "cannot encode NUL") eq_refl eq_refl).
Defined.

(** C4 as stated fails: after [close] (and after [abort]) the instance still
    answers [isOpen] with true, [send] still writes, and [close] and [abort]
    return normally again. *)
Lemma close_leaves_transport_open :
  (let '(ans, _, t) :=
     run [CallClose; CallIsOpen; CallSend "z"; CallClose; CallAbort; CallAbort;
          CallIsOpen]%byte (Demo.opened Demo.tcp false) in (ans, t))
  = ([Returned; ReturnedBool true; Returned; Returned; Returned; Returned;
      ReturnedBool true],
     [LoseConnection; TransportWrite [x00; x00; x00; x01; "z"]; LoseConnection;
      AbortConnection; AbortConnection]%byte).
Proof. reflexivity. Qed.

Lemma closed_after_connectionLost_witness :
  exists t,
    connectionLost ConnectionDone (Demo.opened Demo.tcp false)
    = (Ok tt, set_session None (Demo.opened Demo.tcp false), t)
    /\ run [CallIsOpen; CallSend "z"; CallClose; CallAbort; CallIsOpen]%byte
           (set_session None (Demo.opened Demo.tcp false))
       = ([ReturnedBool false; Raised TransportLost; Raised TransportLost;
           Raised TransportLost; ReturnedBool false],
          set_session None (Demo.opened Demo.tcp false), []).
Proof.
  exact (proj1 (@closed_after_connectionLost _ _ _ _ _ ConnectionDone
                  (Demo.opened Demo.tcp false)
                  [CallIsOpen; CallSend "z"; CallClose; CallAbort; CallIsOpen]%byte
                  eq_refl)).
Defined.

(** C5 as stated fails: [onOpen] raised, yet the instance answers [isOpen]
    with true afterwards, and on a transport without [abortConnection] the
    teardown asked for is the graceful one. *)
Lemma failed_onOpen_leaves_session_bound :
  (let '(ans, _, t) :=
     run [CallConnectionMade; CallIsOpen]
         (buildProtocol
            (Demo.demo_factory (Callable 0 (Ok (Demo.new_session true false))) false)
            Demo.tcp) in (ans, t))
  = ([Returned; ReturnedBool true], [OnOpen; AbortConnection])
  /\ (let '(ans, _, t) :=
        run [CallConnectionMade; CallIsOpen]
            (buildProtocol
               (Demo.demo_factory (Callable 0 (Ok (Demo.new_session true false))) false)
               Demo.process) in (ans, t))
     = ([Returned; ReturnedBool true], [OnOpen; LoseConnection]).
Proof. split; reflexivity. Qed.

Lemma connectionMade_binds_session_witness :
  exists t,
    connectionMade
      (buildProtocol
         (Demo.demo_factory (Callable 0 (Ok (Demo.new_session true false))) true)
         Demo.tcp)
    = (Ok tt,
       set_session (Some (Demo.new_session true false))
         (set_peer "tcp4:127.0.0.1:9000"
            (buildProtocol
               (Demo.demo_factory (Callable 0 (Ok (Demo.new_session true false))) true)
               Demo.tcp)), t)
    /\ observable t = [OnOpen; AbortConnection].
Proof.
  assert (Hc : call0 (_factory (factory
                 (buildProtocol
                    (Demo.demo_factory
                       (Callable 0 (Ok (Demo.new_session true false))) true)
                    Demo.tcp)))
               = Ok (Demo.new_session true false)) by reflexivity.
  assert (Ho : onOpen (Demo.new_session true false)
               = (Demo.new_session true false,
                  Some (OtherException "onOpen failed"))) by reflexivity.
  destruct (connectionMade_binds_session _ Hc Ho) as [t [E [O _]]].
  exists t. split; [exact E | exact O].
Defined.

(** C9 as stated fails: a session constructor that needs one argument is
    accepted by the factory's constructor; the failure comes with the first
    connection. *)
Lemma factory_accepts_callable_needing_arguments :
  WampRawSocketFactory__init__
    (Callable 1 (Ok (Demo.new_session false false))) Demo.serializer false
  = Ok (Demo.demo_factory (Callable 1 (Ok (Demo.new_session false false))) false)
  /\ (let '(ans, _, t) :=
        run [CallConnectionMade]
            (buildProtocol
               (Demo.demo_factory
                  (Callable 1 (Ok (Demo.new_session false false))) false)
               Demo.tcp) in (ans, t))
     = ([Raised (AttributeError "_session")], []).
Proof. split; reflexivity. Qed.

Lemma factory_requires_callable_witness :
  WampRawSocketFactory__init__ (@NotCallable Demo.session) Demo.serializer false
  = Raise AssertionError
  /\ WampRawSocketFactory__init__
       (Callable 0 (Ok (Demo.new_session false false))) Demo.serializer false
     = Ok (Demo.demo_factory (Callable 0 (Ok (Demo.new_session false false))) false).
Proof.
  split.
  - exact (proj1 (factory_requires_callable
                    (@NotCallable Demo.session) Demo.serializer false) eq_refl).
  - exact (proj1 (proj2 (factory_requires_callable
                    (Callable 0 (Ok (Demo.new_session false false)))
                    Demo.serializer false)) eq_refl).
Defined.

(** * Further properties of the protocol *)

Section MoreProtocolFacts.

Context {Msg Session Peer : Type}.
Context {fmt : Formatting Msg Peer} {handler : ITransportHandler Msg Session}.

Implicit Types (p : WampRawSocketProtocol Msg Session Peer).
Implicit Types (s : Session) (t : list (event Msg)).

(** ** Frames that arrive after the connection loss *)

Lemma for_each_forward_none (msgs : list Msg) p :
  _session p = Value None ->
  exists t,
    for_each msgs forward p
    = (match msgs with
       | [] => Ok tt
       | _ :: _ => Raise (AttributeError "NoneType")
       end, p, t)
    /\ observable t = [].
Proof.
  intros H. destruct msgs as [|m ms]; cbn [for_each].
  - now exists [].
  - unfold forward.
    destruct (when_debug_log ("RX WAMP message: " ++ str_msg m)%string p)
      as [t0 [E0 O0]].
    assert (E1 : bind (when_debug (log_msg ("RX WAMP message: " ++ str_msg m)%string))
                   (fun _ => session_call (onMessage m) (OnMessage m)) p
                 = (Raise (AttributeError "NoneType"), p, t0 ++ [])).
    { erewrite (bind_ok E0). unfold session_call. now rewrite H. }
    erewrite (bind_raise E1). exists (t0 ++ []). split; [reflexivity|].
    now rewrite app_nil_r.
Qed.

(** X1. A frame handed to [stringReceived] after the session was released
    is never forwarded and never reaches the transport.  Unless the payload
    decodes to no message at all, the failed handler call is answered by
    [abort], which raises [TransportLost] out of [stringReceived]. *)
Theorem stringReceived_after_loss payload p :
  _session p = Value None ->
  exists t,
    stringReceived payload p
    = (match unserialize (_serializer (factory p)) payload with
       | ([], None) => Ok tt
       | _ => Raise TransportLost
       end, p, t)
    /\ observable t = [].
Proof.
  intros H. unfold stringReceived.
  destruct (when_debug_log ("RX octets: " ++ hexlify payload)%string p)
    as [t0 [E0 O0]].
  erewrite (bind_ok E0).
  set (it := unserialize (_serializer (factory p)) payload).
  destruct (for_each_forward_none (fst it) p H) as [t1 [E1 O1]].
  assert (Hab : forall e,
             exists t,
               (match e with
                | ProtocolError _ =>
                    bind (when_debug (log_msg ("WAMP Protocol Error (" ++ str_exn e
                                ++ ") - aborting connection")%string))
                         (fun _ => abort)
                | _ =>
                    bind (when_debug (log_msg ("WAMP Internal Error (" ++ str_exn e
                                ++ ") - aborting connection")%string))
                         (fun _ => abort)
                end) p
               = (Raise TransportLost, p, t)
               /\ observable t = []).
  { intros e.
    destruct e;
      match goal with
      | |- context [log_msg ?l] =>
          destruct (when_debug_log l p) as [t2 [E2 O2]]
      end;
      erewrite (bind_ok E2); rewrite (abort_closed p H); cbn [fst snd];
      eexists; (split; [reflexivity | now rewrite app_nil_r]). }
  assert (Hinner :
            bind get (fun p0 => iterate (unserialize (_serializer (factory p0)) payload) forward) p
            = (match fst it with
               | _ :: _ => Raise (AttributeError "NoneType")
               | [] => match snd it with Some e => Raise e | None => Ok tt end
               end, p, t1)).
  { unfold bind at 1. unfold get. fold it. unfold iterate.
    destruct (fst it) as [|m ms].
    - erewrite (bind_ok E1).
      destruct (snd it); unfold raise, ret; cbn [fst snd];
        now rewrite app_nil_r.
    - erewrite (bind_raise E1). reflexivity. }
  destruct it as [[|m ms] [e|]]; cbn [fst snd] in Hinner.
  - erewrite (try_except_raise Hinner).
    destruct (Hab e) as [t2 [E2 O2]]. rewrite E2. cbn [fst snd].
    eexists. split; [reflexivity|]. now rewrite !observable_app, O0, O1, O2.
  - erewrite (try_except_ok Hinner). cbn [fst snd].
    eexists. split; [reflexivity|]. now rewrite !observable_app, O0, O1.
  - erewrite (try_except_raise Hinner).
    destruct (Hab (AttributeError "NoneType")) as [t2 [E2 O2]].
    rewrite E2. cbn [fst snd].
    eexists. split; [reflexivity|]. now rewrite !observable_app, O0, O1, O2.
  - erewrite (try_except_raise Hinner).
    destruct (Hab (AttributeError "NoneType")) as [t2 [E2 O2]].
    rewrite E2. cbn [fst snd].
    eexists. split; [reflexivity|]. now rewrite !observable_app, O0, O1, O2.
Qed.

(** ** Invariants of the methods *)

Section Preservation.

Variable I : WampRawSocketProtocol Msg Session Peer -> Prop.
Variable allowed : event Msg -> bool.

Lemma preserves_ret {A} (a : A) : preserves I allowed (ret a).
Proof. intros p Hp. now split. Qed.

Lemma preserves_raise {A} e : preserves I allowed (@raise _ _ _ A e).
Proof. intros p Hp. now split. Qed.

Lemma preserves_lift {A} (r : result A) : preserves I allowed (lift r).
Proof. intros p Hp. now split. Qed.

Lemma preserves_get : preserves I allowed get.
Proof. intros p Hp. now split. Qed.

Lemma preserves_emit ev : allowed ev = true -> preserves I allowed (emit ev).
Proof. intros Hev p Hp. cbn. now rewrite Hev. Qed.

Lemma preserves_modify f :
  (forall p, I p -> I (f p)) -> preserves I allowed (modify f).
Proof. intros Hf p Hp. cbn. auto. Qed.

Lemma preserves_isOpen : preserves I allowed isOpen.
Proof.
  intros p Hp. unfold isOpen. destruct (_session p) as [|[s|]]; now split.
Qed.

Lemma preserves_bind {A B} (m : @M Msg Session Peer A) (k : A -> M B) :
  preserves I allowed m -> (forall a, preserves I allowed (k a)) ->
  preserves I allowed (bind m k).
Proof.
  intros Hm Hk p Hp. unfold bind. destruct (Hm p Hp) as [H1 T1].
  destruct (m p) as [[[a|e] p1] t1]; cbn [fst snd] in *; [|now split].
  destruct (Hk a p1 H1) as [H2 T2].
  destruct (k a p1) as [[r p2] t2]; cbn [fst snd] in *.
  split; [exact H2|]. now rewrite forallb_app, T1, T2.
Qed.

Lemma preserves_try_except_else {A B} (m : @M Msg Session Peer A)
      (h : exn -> M B) (k : A -> M B) :
  preserves I allowed m -> (forall e, preserves I allowed (h e)) ->
  (forall a, preserves I allowed (k a)) ->
  preserves I allowed (try_except_else m h k).
Proof.
  intros Hm Hh Hk p Hp. unfold try_except_else. destruct (Hm p Hp) as [H1 T1].
  destruct (m p) as [[[a|e] p1] t1]; cbn [fst snd] in *.
  - destruct (Hk a p1 H1) as [H2 T2].
    destruct (k a p1) as [[r p2] t2]; cbn [fst snd] in *.
    split; [exact H2|]. now rewrite forallb_app, T1, T2.
  - destruct (Hh e p1 H1) as [H2 T2].
    destruct (h e p1) as [[r p2] t2]; cbn [fst snd] in *.
    split; [exact H2|]. now rewrite forallb_app, T1, T2.
Qed.

Lemma preserves_try_except {A} (m : @M Msg Session Peer A) (h : exn -> M A) :
  preserves I allowed m -> (forall e, preserves I allowed (h e)) ->
  preserves I allowed (try_except m h).
Proof.
  intros Hm Hh. apply preserves_try_except_else; try assumption.
  intros a. apply preserves_ret.
Qed.

Lemma preserves_for_each {A} (body : A -> @M Msg Session Peer unit) xs :
  (forall x, preserves I allowed (body x)) ->
  preserves I allowed (for_each xs body).
Proof.
  intros Hb. induction xs as [|x xs IH]; cbn [for_each].
  - apply preserves_ret.
  - apply preserves_bind; [apply Hb | intros _; exact IH].
Qed.

Lemma preserves_when_debug (m : @M Msg Session Peer unit) :
  preserves I allowed m -> preserves I allowed (when_debug m).
Proof.
  intros Hm p Hp. unfold when_debug.
  destruct (debug (factory p)); [now apply Hm | now split].
Qed.

(** What every method is built from, given the pieces that depend on the
    invariant: the handler call, [abort], and the instance updates. *)
Hypothesis allowed_log : forall line, allowed (LogMsg line) = true.
Hypothesis I_session_call :
  forall h ev, is_session_event ev = true -> preserves I allowed (session_call h ev).
Hypothesis I_abort : preserves I allowed abort.
Hypothesis I_set_session_None : forall p, I p -> I (set_session None p).
Hypothesis I_set_unprocessed : forall v p, I p -> I (set_unprocessed v p).

Lemma preserves_log line : preserves I allowed (when_debug (log_msg line)).
Proof. apply preserves_when_debug, preserves_emit, allowed_log. Qed.

Lemma preserves_connectionLost reason :
  preserves I allowed (connectionLost reason).
Proof.
  unfold connectionLost.
  apply preserves_bind; [apply preserves_log | intros _].
  apply preserves_bind.
  - apply preserves_try_except; [now apply I_session_call|].
    intros e. apply preserves_log.
  - intros _. apply preserves_modify, I_set_session_None.
Qed.

Lemma preserves_stringReceived payload :
  preserves I allowed (stringReceived payload).
Proof.
  unfold stringReceived.
  apply preserves_bind; [apply preserves_log | intros _].
  apply preserves_try_except.
  - apply preserves_bind; [apply preserves_get | intros q]. unfold iterate.
    apply preserves_bind.
    + apply preserves_for_each. intros msg. unfold forward.
      apply preserves_bind; [apply preserves_log | intros _].
      now apply I_session_call.
    + intros _. destruct (snd _); [apply preserves_raise | apply preserves_ret].
  - intros e.
    destruct e; (apply preserves_bind; [apply preserves_log | intros _; exact I_abort]).
Qed.

Lemma preserves_dataReceived data :
  preserves I allowed (dataReceived data).
Proof.
  unfold dataReceived. apply preserves_bind; [apply preserves_get | intros q].
  destruct (Framing.feed (_unprocessed q) data) as [payloads rest].
  apply preserves_bind; [apply preserves_modify, I_set_unprocessed | intros _].
  apply preserves_for_each. apply preserves_stringReceived.
Qed.

Lemma preserves_run (ok : call Msg -> bool) :
  (forall c p,
      ok c = true -> I p ->
      I (snd (fst (perform c p))) /\ forallb allowed (snd (perform c p)) = true) ->
  forall cs p,
    forallb ok cs = true -> I p ->
    I (snd (fst (run cs p))) /\ forallb allowed (snd (run cs p)) = true.
Proof.
  intros Hperform. induction cs as [|c cs IH]; intros p Hcs Hp; cbn [run].
  - now split.
  - cbn [forallb] in Hcs. apply andb_prop in Hcs. destruct Hcs as [Hc Hcs].
    destruct (Hperform c p Hc Hp) as [H1 T1].
    destruct (perform c p) as [[a q] t]. cbn [fst snd] in *.
    destruct (IH q Hcs H1) as [H2 T2].
    destruct (run cs q) as [[ans q'] t']. cbn [fst snd] in *.
    split; [exact H2|]. now rewrite forallb_app, T1, T2.
Qed.

End Preservation.

Lemma perform_unit (m : @M Msg Session Peer unit) p :
  snd (fst (match m p with (r, p', t) => (answer_unit r, p', t) end))
  = snd (fst (m p))
  /\ snd (match m p with (r, p', t) => (answer_unit r, p', t) end) = snd (m p).
Proof. now destruct (m p) as [[r q] t]. Qed.

Lemma observable_all_log t : forallb is_log t = true -> observable t = [].
Proof.
  induction t as [|e t IH]; [reflexivity|]. cbn [forallb]. intros H.
  apply andb_prop in H. destruct H as [He Ht].
  unfold observable in *. cbn [filter]. rewrite He. cbn [negb]. auto.
Qed.

(** ** After the connection loss *)

Lemma released_session_call h (ev : event Msg) :
  preserves released is_log (@session_call Msg Session Peer h ev).
Proof.
  intros p Hp. unfold released in *. unfold session_call. rewrite Hp.
  now split.
Qed.

Ltac released_side :=
  first [ assumption
        | intros ? ? _; apply released_session_call
        | intros; exact eq_refl
        | intros; assumption ].

Lemma released_perform (c : call Msg) p :
  not_connectionMade c = true -> released p ->
  released (snd (fst (perform c p)))
  /\ forallb is_log (snd (perform c p)) = true.
Proof.
  intros Hc Hp.
  assert (Hab : preserves released is_log (@abort Msg Session Peer)).
  { intros q Hq. rewrite (abort_closed q Hq). now split. }
  assert (U : forall m : @M Msg Session Peer unit,
             preserves released is_log m ->
             released (snd (fst (match m p with (r, p', t) => (answer_unit r, p', t) end)))
             /\ forallb is_log (snd (match m p with (r, p', t) => (answer_unit r, p', t) end)) = true).
  { intros m Hm. destruct (perform_unit m p) as [-> ->]. now apply Hm. }
  destruct c; try discriminate; cbn [perform].
  - apply U, preserves_connectionLost; released_side.
  - apply U, preserves_dataReceived; released_side.
  - apply U, preserves_stringReceived; released_side.
  - rewrite (send_closed msg p Hp). now split.
  - rewrite (isOpen_none p Hp). now split.
  - rewrite (close_closed p Hp). now split.
  - rewrite (abort_closed p Hp). now split.
Qed.

(** X2. Once [connectionLost] has run, no later call other than a new
    [connectionMade] reaches the session or the transport, whatever is
    called and however often: [onClose] is called once if a session was
    bound and never otherwise, nothing is forwarded or written afterwards,
    and the session stays released. *)
Theorem nothing_after_connectionLost reason p (cs : list (call Msg)) :
  forallb not_connectionMade cs = true ->
  observable (snd (run (CallConnectionLost reason :: cs) p))
  = match _session p with
    | Value (Some _) => [OnClose (isinstance_ConnectionDone reason)]
    | _ => []
    end
  /\ _session (snd (fst (run (CallConnectionLost reason :: cs) p))) = Value None.
Proof.
  intros Hcs. cbn [run perform].
  assert (E : exists t,
             connectionLost reason p = (Ok tt, set_session None p, t)
             /\ observable t = match _session p with
                               | Value (Some _) =>
                                   [OnClose (isinstance_ConnectionDone reason)]
                               | _ => []
                               end).
  { destruct (_session p) as [|[s|]] eqn:H.
    - exact (@connectionLost_unbound _ _ _ _ reason p (or_introl H)).
    - exact (connectionLost_bound reason p H).
    - exact (@connectionLost_unbound _ _ _ _ reason p (or_intror H)). }
  destruct E as [t [E O]]. rewrite E. cbn [answer_unit].
  destruct (@preserves_run released is_log not_connectionMade released_perform
              cs (set_session None p) Hcs eq_refl) as [H T].
  destruct (run cs (set_session None p)) as [[ans q] t']. cbn [fst snd] in *.
  split; [|exact H].
  now rewrite observable_app, O, (observable_all_log _ T), app_nil_r.
Qed.

(** ** What the methods leave alone *)

Section Frame.

Variable I : WampRawSocketProtocol Msg Session Peer -> Prop.
Variable allowed : event Msg -> bool.
Hypothesis allowed_log : forall line, allowed (LogMsg line) = true.
Hypothesis allowed_transport :
  forall ev, is_log ev = false -> is_session_event ev = false -> allowed ev = true.

Lemma frame_close : preserves I allowed close.
Proof.
  unfold close. apply preserves_bind; [apply preserves_isOpen|].
  intros []; [apply preserves_emit, allowed_transport; reflexivity
             | apply preserves_raise].
Qed.

Lemma frame_abort : preserves I allowed abort.
Proof.
  unfold abort. apply preserves_bind; [apply preserves_isOpen|].
  intros []; [|apply preserves_raise].
  apply preserves_bind; [apply preserves_get | intros q].
  destruct (has_abortConnection (transport q));
    apply preserves_emit, allowed_transport; reflexivity.
Qed.

Lemma frame_send msg : preserves I allowed (send msg).
Proof.
  unfold send. apply preserves_bind; [apply preserves_isOpen|].
  intros []; [|apply preserves_raise].
  apply preserves_bind; [now apply preserves_log | intros _].
  apply preserves_bind; [apply preserves_get | intros q].
  apply preserves_try_except_else.
  - apply preserves_lift.
  - intros e. apply preserves_raise.
  - intros r. apply preserves_bind; [|intros _; now apply preserves_log].
    unfold sendString. destruct (_ <? _)%N.
    + apply preserves_emit, allowed_transport; reflexivity.
    + apply preserves_raise.
Qed.

End Frame.

(** X3. [send], [isOpen], [close] and [abort] never modify the instance and
    never call the session, in any state and whatever they return or raise:
    all they can do is log, write to the transport or ask it to
    disconnect. *)
Theorem transport_calls_leave_instance_unchanged (msg : Msg) p :
  (snd (fst (send msg p)) = p
   /\ filter is_session_event (snd (send msg p)) = [])
  /\ (snd (fst (isOpen p)) = p /\ snd (isOpen p) = [])
  /\ (snd (fst (close p)) = p
      /\ filter is_session_event (snd (close p)) = [])
  /\ (snd (fst (abort p)) = p
      /\ filter is_session_event (snd (abort p)) = []).
Proof.
  assert (N : forall t : list (event Msg),
             forallb (fun e => negb (is_session_event e)) t = true ->
             filter is_session_event t = []).
  { induction t as [|e t IH]; [reflexivity|]. cbn [forallb filter]. intros H.
    apply andb_prop in H. destruct H as [He Ht].
    destruct (is_session_event e); [discriminate | auto]. }
  assert (L : forall line : string,
             negb (is_session_event (@LogMsg Msg line)) = true) by reflexivity.
  assert (T : forall ev : event Msg,
             is_log ev = false -> is_session_event ev = false ->
             negb (is_session_event ev) = true) by (intros ev _ ->; reflexivity).
  repeat split.
  - now destruct (@frame_send (fun q => q = p) _ L T msg p eq_refl).
  - apply N. now destruct (@frame_send (fun q => q = p) _ L T msg p eq_refl).
  - unfold isOpen. now destruct (_session p) as [|[s|]].
  - unfold isOpen. now destruct (_session p) as [|[s|]].
  - now destruct (@frame_close (fun q => q = p) _ T p eq_refl).
  - apply N. now destruct (@frame_close (fun q => q = p) _ T p eq_refl).
  - now destruct (@frame_abort (fun q => q = p) _ T p eq_refl).
  - apply N. now destruct (@frame_abort (fun q => q = p) _ T p eq_refl).
Qed.

Lemma any_session_call (I : WampRawSocketProtocol Msg Session Peer -> Prop)
      h (ev : event Msg) :
  (forall v p, I p -> I (set_session v p)) ->
  preserves I (fun _ => true) (session_call h ev).
Proof.
  intros HI p Hp. unfold session_call.
  destruct (_session p) as [|[s|]]; try now split.
  destruct (h s) as [s' r]. cbn [fst snd]. split; [now apply HI | reflexivity].
Qed.

Lemma any_connectionMade_tail
      (I : WampRawSocketProtocol Msg Session Peer -> Prop) (o : pyobject Session) :
  (forall v p, I p -> I (set_session v p)) ->
  preserves I (fun _ => true)
    (try_except
       (bind (lift (call0 o))
          (fun s => bind (modify (set_session (Some s)))
                      (fun _ => session_call onOpen OnOpen)))
       (fun e =>
          bind (when_debug
                  (log_msg ("ApplicationSession constructor / onOpen raised ("
                            ++ str_exn e ++ ")")%string))
            (fun _ => abort))).
Proof.
  intros HI. apply preserves_try_except.
  - apply preserves_bind; [apply preserves_lift | intros s].
    apply preserves_bind; [apply preserves_modify; auto | intros _].
    now apply any_session_call.
  - intros e. apply preserves_bind; [now apply preserves_log | intros _].
    now apply frame_abort.
Qed.

Lemma any_connectionMade (I : WampRawSocketProtocol Msg Session Peer -> Prop) :
  (forall v p, I p -> I (set_session v p)) ->
  (forall v p, I p -> I (set_peer v p)) ->
  preserves I (fun _ => true) (@connectionMade Msg Session Peer fmt handler).
Proof.
  intros HS HP. unfold connectionMade.
  apply preserves_bind; [now apply preserves_log | intros _].
  apply preserves_bind; [apply preserves_get | intros q].
  apply preserves_bind.
  - destruct (getPeer (transport q)); apply preserves_modify; auto.
  - intros _. now apply any_connectionMade_tail.
Qed.

Lemma any_perform (I : WampRawSocketProtocol Msg Session Peer -> Prop)
      (ok : call Msg -> bool) :
  (forall v p, I p -> I (set_session v p)) ->
  (forall v p, I p -> I (set_unprocessed v p)) ->
  (forall c, ok c = true ->
             preserves I (fun _ => true)
               (@connectionMade Msg Session Peer fmt handler)
             \/ not_connectionMade c = true) ->
  forall c p,
    ok c = true -> I p ->
    I (snd (fst (perform c p)))
    /\ forallb (fun _ => true) (snd (perform c p)) = true.
Proof.
  intros HS HU Hmade c p Hc Hp.
  assert (U : forall m : @M Msg Session Peer unit,
             preserves I (fun _ => true) m ->
             I (snd (fst (match m p with (r, p', t) => (answer_unit r, p', t) end)))
             /\ forallb (fun _ : event Msg => true)
                  (snd (match m p with (r, p', t) => (answer_unit r, p', t) end))
                = true).
  { intros m Hm. destruct (perform_unit m p) as [-> ->]. now apply Hm. }
  assert (HA : preserves I (fun _ : event Msg => true) abort)
    by now apply frame_abort.
  assert (HC : forall h (ev : event Msg),
             is_session_event ev = true ->
             preserves I (fun _ => true) (session_call h ev))
    by (intros; now apply any_session_call).
  destruct c; cbn [perform].
  - destruct (Hmade _ Hc) as [Hm|Hm]; [now apply U | discriminate].
  - apply U, preserves_connectionLost; auto.
  - apply U, preserves_dataReceived; auto.
  - apply U, preserves_stringReceived; auto.
  - now apply U, frame_send.
  - destruct (@preserves_isOpen I (fun _ => true) p Hp) as [H T].
    now destruct (isOpen p) as [[r q] t].
  - now apply U, frame_close.
  - now apply U, frame_abort.
Qed.

(** X4. No method ever assigns [factory] or [transport]: after any sequence
    of calls the instance still has the factory (session constructor,
    serializer, debug flag) and the transport it started with. *)
Theorem configuration_never_changes (cs : list (call Msg)) p :
  factory (snd (fst (run cs p))) = factory p
  /\ transport (snd (fst (run cs p))) = transport p.
Proof.
  assert (HS : forall v q, configured (factory p) (transport p) q ->
                           configured (factory p) (transport p) (set_session v q))
    by (intros v q H; exact H).
  assert (HU : forall v q, configured (factory p) (transport p) q ->
                           configured (factory p) (transport p) (set_unprocessed v q))
    by (intros v q H; exact H).
  assert (HP : forall v q, configured (factory p) (transport p) q ->
                           configured (factory p) (transport p) (set_peer v q))
    by (intros v q H; exact H).
  destruct (@preserves_run (configured (factory p) (transport p)) (fun _ => true)
              (fun _ => true)
              (@any_perform _ (fun _ => true) HS HU
                 (fun c _ => or_introl (any_connectionMade _ HS HP)))
              cs p) as [H _].
  - now induction cs.
  - now split.
  - exact H.
Qed.

(** X5. [connectionMade] assigns [peer] before anything else can fail:
    whatever the session constructor and [onOpen] do, [peer] ends up as the
    transport's peer address, or as ["?"] on a transport without [getPeer].
    No other method assigns it. *)
Theorem peer_is_resolved_by_connectionMade (cs : list (call Msg)) p :
  peer (snd (fst (connectionMade p))) = Value (peer_of p)
  /\ (forallb not_connectionMade cs = true ->
      peer (snd (fst (run cs p))) = peer p).
Proof.
  split.
  - assert (HS : forall v (q : WampRawSocketProtocol Msg Session Peer),
               peer q = Value (peer_of p) ->
               peer (set_session v q) = Value (peer_of p))
      by (intros v q H; exact H).
    pose proof (@any_connectionMade_tail (fun q => peer q = Value (peer_of p))
                  (_factory (factory p)) HS) as Tail.
    unfold connectionMade.
    destruct (when_debug_log "WAMP-over-RawSocket connection made" p)
      as [t0 [E0 _]].
    erewrite (bind_ok E0). cbn [fst snd].
    erewrite (bind_ok (m := get) (p := p) eq_refl). cbn [fst snd].
    assert (E1 : (match getPeer (transport p) with
                  | None => modify (set_peer "?")
                  | Some a => modify (set_peer (peer2str a))
                  end) p
                 = (Ok tt, set_peer (peer_of p) p, [])).
    { unfold peer_of. now destruct (getPeer (transport p)). }
    erewrite (bind_ok E1). cbn [fst snd].
    now destruct (Tail (set_peer (peer_of p) p) eq_refl).
  - intros Hcs.
    destruct (@preserves_run (fun q => peer q = peer p) (fun _ => true)
                not_connectionMade
                (@any_perform (fun q => peer q = peer p) not_connectionMade
                   (fun v q H => H) (fun v q H => H)
                   (fun c Hc => or_intror Hc))
                cs p Hcs eq_refl) as [H _].
    exact H.
Qed.

(** ** A session constructor that fails *)

Lemma unset_calls_raise (msg : Msg) p :
  _session p = Unset ->
  isOpen p = (Raise (AttributeError "_session"), p, [])
  /\ send msg p = (Raise (AttributeError "_session"), p, [])
  /\ close p = (Raise (AttributeError "_session"), p, [])
  /\ abort p = (Raise (AttributeError "_session"), p, []).
Proof.
  intros H.
  assert (E : isOpen p = (Raise (AttributeError "_session"), p, []))
    by (unfold isOpen; now rewrite H).
  repeat split; [exact E | unfold send | unfold close | unfold abort];
    now erewrite (bind_raise E).
Qed.

(** X6. When the session constructor raises on a fresh instance (one whose
    [_session] was never assigned), [connectionMade] does not abort the
    connection: the handler's [abort] fails reading [_session], so
    [connectionMade] ends with that [AttributeError], no transport or session
    call is made, and [_session] stays unassigned.  From then on [isOpen],
    [send], [close] and [abort] all raise [AttributeError] rather than
    [TransportLost]; only [connectionLost] still completes, without calling
    [onClose]. *)
Theorem constructor_failure_is_not_aborted
    (f : WampRawSocketFactory Msg Session) (tr : Transport Peer) e
    (msg : Msg) reason :
  call0 (_factory f) = Raise e ->
  exists t q t',
    connectionMade (buildProtocol f tr) = (Raise (AttributeError "_session"), q, t)
    /\ observable t = []
    /\ _session q = Unset
    /\ isOpen q = (Raise (AttributeError "_session"), q, [])
    /\ send msg q = (Raise (AttributeError "_session"), q, [])
    /\ close q = (Raise (AttributeError "_session"), q, [])
    /\ abort q = (Raise (AttributeError "_session"), q, [])
    /\ connectionLost reason q = (Ok tt, set_session None q, t')
    /\ observable t' = [].
Proof.
  intros Hc.
  destruct (@connectionMade_constructor_raises _ _ _ _ _ (buildProtocol f tr) e
              eq_refl Hc) as [t [E O]].
  set (q := set_peer (peer_of (buildProtocol f tr)) (buildProtocol f tr)) in *.
  destruct (@connectionLost_unbound _ _ _ _ reason q (or_introl eq_refl))
    as [t' [E' O']].
  destruct (@unset_calls_raise msg q eq_refl) as [H1 [H2 [H3 H4]]].
  exists t, q, t'. repeat split; assumption.
Qed.

(** ** A whole connection *)

Lemma run_app (cs1 cs2 : list (call Msg)) :
  forall p,
    run (cs1 ++ cs2) p
    = (fst (fst (run cs1 p)) ++ fst (fst (run cs2 (snd (fst (run cs1 p))))),
       snd (fst (run cs2 (snd (fst (run cs1 p))))),
       snd (run cs1 p) ++ snd (run cs2 (snd (fst (run cs1 p))))).
Proof.
  induction cs1 as [|c cs1 IH]; intros p; cbn [app run fst snd].
  - now destruct (run cs2 p) as [[a q] t].
  - destruct (perform c p) as [[a q] t]. rewrite (IH q).
    destruct (run cs1 q) as [[a1 q1] t1]. cbn [fst snd].
    now rewrite app_assoc.
Qed.

Lemma connectionMade_opened p s s1 :
  call0 (_factory (factory p)) = Ok s ->
  onOpen s = (s1, None) ->
  exists t,
    connectionMade p
    = (Ok tt, set_session (Some s1) (set_peer (peer_of p) p), t)
    /\ observable t = [OnOpen].
Proof.
  intros Hc Ho. unfold connectionMade.
  destruct (when_debug_log "WAMP-over-RawSocket connection made" p)
    as [t0 [E0 O0]].
  erewrite (bind_ok E0). cbn [fst snd].
  erewrite (bind_ok (m := get) (p := p) eq_refl). cbn [fst snd].
  assert (E1 : (match getPeer (transport p) with
                | None => modify (set_peer "?")
                | Some a => modify (set_peer (peer2str a))
                end) p
               = (Ok tt, set_peer (peer_of p) p, [])).
  { unfold peer_of. now destruct (getPeer (transport p)). }
  erewrite (bind_ok E1). cbn [fst snd].
  assert (E2 : bind (lift (call0 (_factory (factory p))))
                 (fun s0 => bind (modify (set_session (Some s0)))
                              (fun _ => session_call onOpen OnOpen))
                 (set_peer (peer_of p) p)
               = (Ok tt, set_session (Some s1) (set_peer (peer_of p) p), [OnOpen])).
  { unfold bind, lift, modify, session_call. rewrite Hc.
    cbn [_session set_session]. now rewrite Ho. }
  erewrite (try_except_ok E2).
  eexists. split; [reflexivity|]. now rewrite observable_app, O0.
Qed.

(** X7. A connection that goes well, from start to end: on a fresh instance
    whose constructor and [onOpen] succeed and whose frames all decode and
    are handled, the session sees [onOpen] first, then every message in
    arrival order, then [onClose] once, and nothing else happens; all calls
    return normally and the session is released at the end. *)
Theorem connection_lifecycle
    (f : WampRawSocketFactory Msg Session) (tr : Transport Peer)
    s0 s1 s2 fw (ps : list (list byte)) reason :
  call0 (_factory f) = Ok s0 ->
  onOpen s0 = (s1, None) ->
  Forall (fun payload => snd (unserialize (_serializer f) payload) = None) ps ->
  deliver s1 (decoded (_serializer f) ps) = (s2, fw, None) ->
  exists t,
    run (CallConnectionMade :: map CallStringReceived ps
           ++ [CallConnectionLost reason]) (buildProtocol f tr)
    = (Returned :: map (fun _ => Returned) ps ++ [Returned],
       set_session None
         (set_peer (peer_of (buildProtocol f tr)) (buildProtocol f tr)), t)
    /\ observable t
       = OnOpen :: map OnMessage (decoded (_serializer f) ps)
           ++ [OnClose (isinstance_ConnectionDone reason)].
Proof.
  intros Hc Ho Hok D.
  set (p0 := buildProtocol f tr).
  destruct (@connectionMade_opened p0 s0 s1 Hc Ho) as [t0 [E0 O0]].
  set (p1 := set_session (Some s1) (set_peer (peer_of p0) p0)) in *.
  destruct (@strings_forwarded _ _ _ _ _ ps p1 s1 s2 fw eq_refl Hok D)
    as [t1 [E1 O1]].
  destruct (@connectionLost_bound _ _ _ _ reason (set_session (Some s2) p1) s2
              eq_refl) as [t2 [E2 O2]].
  cbn [run perform]. rewrite E0. cbn [answer_unit].
  rewrite run_app, E1. cbn [fst snd run perform]. rewrite E2.
  cbn [answer_unit fst snd].
  eexists. split; [reflexivity|].
  rewrite !observable_app, O0, O1, O2. cbn [observable filter app].
  reflexivity.
Qed.

(** ** Outbound frames *)

Lemma send_writes_frame (msg : Msg) p s :
  _session p = Value (Some s) ->
  sendable (_serializer (factory p)) msg ->
  exists t,
    send msg p = (Ok tt, p, t)
    /\ observable t = [TransportWrite (frame_of (_serializer (factory p)) msg)].
Proof.
  intros H S. unfold sendable, frame_of, payload_of in *.
  destruct (serialize (_serializer (factory p)) msg) as [[payload b]|e] eqn:E;
    [|contradiction].
  unfold send. erewrite (bind_ok (isOpen_bound p H)). cbn [fst snd app].
  destruct (when_debug_log ("TX WAMP message: " ++ str_msg msg)%string p)
    as [t0 [E0 O0]].
  erewrite (bind_ok E0). cbn [fst snd].
  erewrite (bind_ok (m := get) (p := p) eq_refl). cbn [fst snd app].
  unfold try_except_else, lift. rewrite E. cbn [fst snd app].
  unfold sendString. unfold Framing.fits in S.
  apply N.ltb_lt in S. rewrite S.
  destruct (when_debug_log ("TX octets: " ++ hexlify payload)%string p)
    as [t1 [E1 O1]].
  erewrite (bind_ok (m := emit _) (p := p) eq_refl). rewrite E1.
  cbn [fst snd app].
  eexists. split; [reflexivity|].
  rewrite observable_app. cbn [app]. rewrite O0.
  change (TransportWrite (Framing.encode payload) :: t1)
    with ([@TransportWrite Msg (Framing.encode payload)] ++ t1).
  now rewrite observable_app, O1.
Qed.

Lemma sends_run (msgs : list Msg) p s :
  _session p = Value (Some s) ->
  Forall (sendable (_serializer (factory p))) msgs ->
  exists t,
    run (map CallSend msgs) p = (map (fun _ => Returned) msgs, p, t)
    /\ observable t
       = map (fun m => TransportWrite (frame_of (_serializer (factory p)) m)) msgs.
Proof.
  intros H Hs. induction Hs as [|m ms Hm _ IH].
  - now exists [].
  - destruct (send_writes_frame m p H Hm) as [t0 [E0 O0]].
    destruct IH as [t1 [E1 O1]].
    cbn [map run perform]. rewrite E0, E1. cbn [answer_unit].
    eexists. split; [reflexivity|]. now rewrite observable_app, O0, O1.
Qed.

Lemma written_observable t : written (observable t) = written t.
Proof.
  induction t as [|e t IH]; [reflexivity|].
  unfold observable in *. cbn [filter written flat_map].
  destruct e; cbn [is_log negb written flat_map app]; unfold written in IH;
    now rewrite ?IH.
Qed.

Lemma written_frames (ser : ISerializer Msg) (msgs : list Msg) :
  written (map (fun m => @TransportWrite Msg (frame_of ser m)) msgs)
  = concat (map (frame_of ser) msgs).
Proof.
  induction msgs as [|m ms IH]; [reflexivity|].
  unfold written in *. cbn [map flat_map concat]. now rewrite IH.
Qed.

(** X8. On an open transport, sending messages the serializer can encode
    writes exactly one frame per [send], in the order of the calls, each the
    length-prefixed payload the serializer returned (its binary hint is
    ignored); every call returns normally, the session is not called and the
    instance is unchanged. *)
Theorem sends_are_written_in_order (msgs : list Msg) p s :
  _session p = Value (Some s) ->
  Forall (sendable (_serializer (factory p))) msgs ->
  exists t,
    run (map CallSend msgs) p = (map (fun _ => Returned) msgs, p, t)
    /\ observable t
       = map (fun m => TransportWrite (frame_of (_serializer (factory p)) m)) msgs
    /\ written t = concat (map (frame_of (_serializer (factory p))) msgs).
Proof.
  intros H Hs. destruct (@sends_run msgs p s H Hs) as [t [E O]].
  exists t. repeat split; try assumption.
  now rewrite <- written_observable, O, written_frames.
Qed.

(** X9. What one endpoint sends, the other receives.  If the receiver's
    serializer decodes every payload the sender's serializer produces back
    into the one message it came from, then the bytes written by the
    sender's [send] calls, cut into reads in any way and fed to the
    receiver's [dataReceived], make the receiver forward exactly the
    messages sent, in the order they were sent. *)
Theorem sent_messages_arrive
    (msgs : list Msg) (pA pB : WampRawSocketProtocol Msg Session Peer)
    sA sB sB' fw (reads : list (list byte)) :
  _session pA = Value (Some sA) ->
  Forall (sendable (_serializer (factory pA))) msgs ->
  Forall (fun m =>
            unserialize (_serializer (factory pB))
              (payload_of (_serializer (factory pA)) m) = ([m], None)) msgs ->
  _session pB = Value (Some sB) ->
  _unprocessed pB = [] ->
  deliver sB msgs = (sB', fw, None) ->
  concat reads = written (snd (run (map CallSend msgs) pA)) ->
  exists t,
    run (map CallDataReceived reads) pB
    = (map (fun _ => Returned) reads, set_session (Some sB') pB, t)
    /\ observable t = map OnMessage msgs.
Proof.
  intros HA Hs Hrt HB Hbuf D Hreads.
  assert (Hst : set_unprocessed [] (set_session (Some sB') pB)
                = set_session (Some sB') pB)
    by (clear -Hbuf; destruct pB; cbn in *; now subst).
  destruct (@sends_run msgs pA sA HA Hs) as [tA [EA OA]].
  rewrite EA in Hreads. cbn [snd] in Hreads.
  rewrite <- written_observable, OA, written_frames in Hreads.
  set (serA := _serializer (factory pA)) in *.
  set (serB := _serializer (factory pB)) in *.
  set (payloads := map (payload_of serA) msgs).
  assert (Hfit : Forall Framing.fits payloads).
  { unfold payloads. apply Forall_map. eapply Forall_impl; [|exact Hs].
    intros m. unfold sendable, payload_of.
    now destruct (serialize serA m) as [[payload b]|]. }
  assert (Hok : Forall (fun payload => snd (unserialize serB payload) = None)
                  payloads).
  { unfold payloads. apply Forall_map. eapply Forall_impl; [|exact Hrt].
    intros m ->. reflexivity. }
  assert (Hdec : decoded serB payloads = msgs).
  { unfold decoded, payloads. clear -Hrt.
    induction Hrt as [|m ms Hm _ IH]; [reflexivity|].
    cbn [map concat]. now rewrite Hm, IH. }
  assert (Hstream : concat reads = concat (map Framing.encode payloads)).
  { rewrite Hreads. unfold payloads, frame_of. now rewrite map_map. }
  assert (F : Framing.feed_all (_unprocessed pB) reads = (payloads, [])).
  { rewrite Hbuf, feed_all_concat by reflexivity. cbn [app].
    rewrite Hstream, <- (app_nil_r (concat _)).
    now apply extract_frames. }
  rewrite <- Hdec in D.
  destruct (@reads_forwarded _ _ _ _ _ reads pB sB payloads [] sB' fw HB F Hok D)
    as [t [E O]].
  exists t. split.
  - now rewrite E, Hst.
  - subst serB. now rewrite O, Hdec.
Qed.

End MoreProtocolFacts.

(** * Properties of the option and detail classes *)

Section TypesFacts.

Import Types.

Ltac run_asserts :=
  unfold and_then, py_assert;
  repeat match goal with
         | |- context [if ?c then Ok tt else Raise AssertionError] =>
             let H := fresh "A" in destruct c eqn:H
         end.

Lemma to_text_none_or_text (six : Six) (v : pyvalue) :
  none_or_text (to_text six v)
  = match v with
    | PyNone | PyText _ => true
    | PyBytes _ => PY2 six
    | _ => false
    end.
Proof. unfold to_text. destruct (PY2 six), v; reflexivity. Qed.

(** X10. [Accept] succeeds exactly when each of its four arguments is [None],
    text, or, under Python 2 only, a byte string, which is then stored
    converted by [six.u]; anything else fails the assertion.  After a
    successful construction every attribute is [None] or text. *)
Theorem Accept_attributes_are_text (six : Six) (a b c d : pyvalue) :
  match Accept.__init__ six a b c d with
  | Ok o =>
      Accept.authid o = to_text six a
      /\ Accept.authrole o = to_text six b
      /\ Accept.authmethod o = to_text six c
      /\ Accept.authprovider o = to_text six d
      /\ forallb none_or_text
           [Accept.authid o; Accept.authrole o; Accept.authmethod o;
            Accept.authprovider o] = true
  | Raise e =>
      e = AssertionError
      /\ forallb (fun v => none_or_text (to_text six v)) [a; b; c; d] = false
  end
  /\ forall v,
      none_or_text (to_text six v)
      = match v with
        | PyNone | PyText _ => true
        | PyBytes _ => PY2 six
        | _ => false
        end.
Proof.
  split; [|apply to_text_none_or_text].
  unfold Accept.__init__. cbv zeta.
  fold (none_or_text (to_text six a)) (none_or_text (to_text six b))
       (none_or_text (to_text six c)) (none_or_text (to_text six d)).
  run_asserts; cbn [forallb Accept.authid Accept.authrole Accept.authmethod
                      Accept.authprovider];
    rewrite ?A, ?A0, ?A1, ?A2; repeat split; reflexivity.
Qed.

(** X14. [Deny] needs a reason: [None] is rejected for [reason] although it
    is accepted for [message], and so is anything that is not text (or a
    Python 2 byte string, which is converted).  After construction [reason]
    is text and [message] is text or [None]; the defaults construct. *)
Theorem Deny_reason_is_text (six : Six) (r m : pyvalue) :
  match Deny.__init__ six r m with
  | Ok o =>
      Deny.reason o = to_text six r
      /\ Deny.message o = to_text six m
      /\ type_is_text (Deny.reason o) = true
      /\ none_or_text (Deny.message o) = true
  | Raise e => e = AssertionError
  end
  /\ Deny.__init__ six PyNone m = Raise AssertionError
  /\ Deny.__init__ six Deny.default_reason PyNone
     = Ok {| Deny.reason := Deny.default_reason; Deny.message := PyNone |}.
Proof.
  repeat split.
  - unfold Deny.__init__. cbv zeta.
    fold (none_or_text (to_text six m)).
    run_asserts; cbn [Deny.reason Deny.message]; repeat split; now rewrite ?A, ?A0.
  - unfold Deny.__init__, to_text. now destruct (PY2 six).
  - unfold Deny.__init__, Deny.default_reason, to_text. now destruct (PY2 six).
Qed.

Lemma text_in_inv (v : pyvalue) (choices : list string) :
  (type_is_text v && text_in v choices) = true ->
  exists s, v = PyText s /\ In s choices.
Proof.
  destruct v; try discriminate. cbn [type_is_text text_in andb].
  intros H. apply existsb_exists in H. destruct H as [x [Hin Heq]].
  apply String.eqb_eq in Heq. subst. eauto.
Qed.

Lemma text_in_intro (s : string) (choices : list string) :
  In s choices -> (type_is_text (PyText s) && text_in (PyText s) choices) = true.
Proof.
  intros H. cbn [type_is_text text_in andb]. apply existsb_exists.
  exists s. split; [exact H | apply String.eqb_refl].
Qed.

(** X11. [SubscribeOptions] succeeds exactly when [match] is [None] or one of
    the texts [exact], [prefix], [wildcard] and [details_arg] is [None] or of
    type [str]; [options] then holds the single key [match] with the value
    given, [None] included.  Nothing is converted here: a byte string is
    never accepted as [match], not even under Python 2. *)
Theorem SubscribeOptions_validates (six : Six) (m d : pyvalue) :
  let valid :=
    (m = PyNone \/ exists s, m = PyText s /\ In s ["exact"; "prefix"; "wildcard"])
    /\ (d = PyNone \/ type_is_str six d = true) in
  match SubscribeOptions.__init__ six m d with
  | Ok o =>
      valid
      /\ SubscribeOptions.match_ o = m
      /\ SubscribeOptions.details_arg o = d
      /\ SubscribeOptions.options o = [("match", m)]
  | Raise e => e = AssertionError /\ ~ valid
  end
  /\ forall s, SubscribeOptions.__init__ six (PyBytes s) d = Raise AssertionError.
Proof.
  cbv zeta. split; [|reflexivity].
  unfold SubscribeOptions.__init__. run_asserts.
  - repeat split.
    + apply orb_prop in A. destruct A as [A|A].
      * left. now destruct m.
      * right. now apply text_in_inv.
    + apply orb_prop in A0. destruct A0 as [A0|A0].
      * left. now destruct d.
      * now right.
  - split; [reflexivity|]. intros [_ [->|Hd]].
    + discriminate.
    + rewrite Hd, orb_true_r in A0. discriminate.
  - split; [reflexivity|]. intros [[->|[s [-> Hs]]] _].
    + discriminate.
    + rewrite (text_in_intro _ _ Hs), orb_true_r in A. discriminate.
Qed.

(** X12. [PublishOptions] accepts only [None] or a [bool] for each flag and
    only [None] or a list of integers (a [bool] in the list does not count)
    for [exclude] and [eligible].  Once constructed, [options] always has all
    five keys, in the order written, each holding the argument as given,
    [None] included. *)
Theorem PublishOptions_options_mirror_arguments (a xm x el dm : pyvalue) :
  let valid :=
    none_or_bool a && none_or_bool xm
    && (is_none x || is_list_of_integers x)
    && (is_none el || is_list_of_integers el)
    && none_or_bool dm in
  match PublishOptions.__init__ a xm x el dm with
  | Ok o =>
      valid = true
      /\ dict_keys (PublishOptions.options o)
         = ["acknowledge"; "excludeMe"; "exclude"; "eligible"; "discloseMe"]
      /\ dict_get "acknowledge" (PublishOptions.options o) = Some a
      /\ dict_get "excludeMe" (PublishOptions.options o) = Some xm
      /\ dict_get "exclude" (PublishOptions.options o) = Some x
      /\ dict_get "eligible" (PublishOptions.options o) = Some el
      /\ dict_get "discloseMe" (PublishOptions.options o) = Some dm
  | Raise e => e = AssertionError /\ valid = false
  end
  /\ forall xs, is_list_of_integers (PyList (PyBool true :: xs)) = false.
Proof.
  cbv zeta. split; [|reflexivity].
  unfold PublishOptions.__init__, none_or_bool. run_asserts;
    cbn [PublishOptions.options andb]; rewrite ?andb_false_r;
    repeat split; reflexivity.
Qed.

Lemma dict_get_set_eq (k : string) (v : pyvalue) (d : pydict) :
  dict_get k (dict_set k v d) = Some v.
Proof.
  induction d as [|[k' v'] d IH]; cbn [dict_set dict_get].
  - now rewrite String.eqb_refl.
  - destruct (String.eqb k k') eqn:E; cbn [dict_get]; rewrite ?E.
    + now rewrite String.eqb_refl.
    + exact IH.
Qed.

Lemma dict_get_set_ne (k k' : string) (v : pyvalue) (d : pydict) :
  k <> k' -> dict_get k' (dict_set k v d) = dict_get k' d.
Proof.
  intros Hne. induction d as [|[k0 v0] d IH]; cbn [dict_set dict_get].
  - destruct (String.eqb k' k) eqn:E; [|reflexivity].
    apply String.eqb_eq in E. congruence.
  - destruct (String.eqb k k0) eqn:E; cbn [dict_get].
    + apply String.eqb_eq in E. subst k0.
      destruct (String.eqb k' k) eqn:E'; [|reflexivity].
      apply String.eqb_eq in E'. congruence.
    + destruct (String.eqb k' k0); [reflexivity | exact IH].
Qed.

(** X13. [CallOptions] accepts a [timeout] only if it is [None] or an integer
    or float greater than zero (zero, negatives, NaN and [bool] fail the
    assertion) and an [onProgress] only if it is [None] or callable.  Once
    constructed, [options] holds [timeout] and [discloseMe] as given, holds
    [receive_progress = True] exactly when [onProgress] tests true, and
    never holds [runOn] or the callback itself.  The test is [if onProgress:],
    not [is not None]: a callback that tests false (a callable object whose
    [__len__] answers 0, say) passes the assertion, is stored in
    [onProgress], and sets no [receive_progress]. *)
Theorem CallOptions_options (op tm dm ro : pyvalue) :
  match CallOptions.__init__ op tm dm ro with
  | Ok o =>
      (op = PyNone \/ is_callable op = true)
      /\ (tm = PyNone
          \/ ((exists z, tm = PyInt z /\ (0 < z)%Z)
              \/ (exists f, tm = PyFloat f
                            /\ PrimFloat.ltb PrimFloat.zero f = true)))
      /\ dict_get "timeout" (CallOptions.options o) = Some tm
      /\ dict_get "discloseMe" (CallOptions.options o) = Some dm
      /\ dict_get "receive_progress" (CallOptions.options o)
         = (if truthy op then Some (PyBool true) else None)
      /\ dict_get "runOn" (CallOptions.options o) = None
      /\ dict_get "onProgress" (CallOptions.options o) = None
      /\ CallOptions.onProgress o = op
  | Raise e => e = AssertionError
  end
  /\ CallOptions.__init__ op (PyInt 0) dm ro = Raise AssertionError
  /\ CallOptions.__init__ op (PyFloat PrimFloat.nan) dm ro = Raise AssertionError
  /\ (forall b, CallOptions.__init__ op (PyBool b) dm ro = Raise AssertionError)
  /\ forall name truth,
       exists o,
         CallOptions.__init__ (PyCallable name truth) PyNone PyNone PyNone
         = Ok o
         /\ CallOptions.onProgress o = PyCallable name truth
         /\ dict_get "receive_progress" (CallOptions.options o)
            = (if truth then Some (PyBool true) else None).
Proof.
  split.
  - unfold CallOptions.__init__. run_asserts; try reflexivity. cbv zeta.
    cbn [CallOptions.options].
    assert (Hop : op = PyNone \/ is_callable op = true).
    { apply orb_prop in A. destruct A as [A|A]; [left; now destruct op | now right]. }
    assert (Htm : tm = PyNone
                  \/ ((exists z, tm = PyInt z /\ (0 < z)%Z)
                      \/ (exists f, tm = PyFloat f
                                    /\ PrimFloat.ltb PrimFloat.zero f = true))).
    { apply orb_prop in A0. destruct A0 as [A0|A0]; [left; now destruct tm|].
      right. apply andb_prop in A0. destruct A0 as [_ G].
      destruct tm; try discriminate; cbn [greater_than_zero] in G.
      - left. exists z. split; [reflexivity | now apply Z.ltb_lt].
      - right. now exists f. }
    split; [exact Hop|]. split; [exact Htm|].
    cbn [CallOptions.onProgress].
    destruct (truthy op).
    + rewrite dict_get_set_eq, !dict_get_set_ne by discriminate.
      repeat split; reflexivity.
    + repeat split; reflexivity.
  - unfold CallOptions.__init__, and_then, py_assert.
    repeat split; intros;
      try (destruct (is_none op || is_callable op); reflexivity).
    destruct truth; eexists; (split; [reflexivity|]); split; reflexivity.
Qed.

End TypesFacts.

(** * Concrete runs for the further properties *)

Lemma stringReceived_after_loss_witness :
  exists t,
    stringReceived ["a"]%byte (set_session None (Demo.opened Demo.tcp true))
    = (Raise TransportLost, set_session None (Demo.opened Demo.tcp true), t)
    /\ observable t = [].
Proof.
  exact (@stringReceived_after_loss _ _ _ _ _ ["a"]%byte
           (set_session None (Demo.opened Demo.tcp true)) eq_refl).
Defined.

Lemma nothing_after_connectionLost_witness :
  observable
    (snd (run [CallConnectionLost ConnectionDone; CallStringReceived ["a"];
               CallSend "z"; CallConnectionLost ConnectionLost;
               CallDataReceived [x00; x00; x00; x01; "b"]; CallClose]%byte
              (Demo.opened Demo.tcp false)))
  = [OnClose true].
Proof.
  exact (proj1 (@nothing_after_connectionLost _ _ _ _ _ ConnectionDone
                  (Demo.opened Demo.tcp false)
                  [CallStringReceived ["a"]; CallSend "z";
                   CallConnectionLost ConnectionLost;
                   CallDataReceived [x00; x00; x00; x01; "b"]; CallClose]%byte
                  eq_refl)).
Defined.

Lemma peer_is_resolved_by_connectionMade_witness :
  peer (snd (fst (run [CallStringReceived ["a"]; CallConnectionLost ConnectionDone]%byte
                      (Demo.opened Demo.process false))))
  = Value "?".
Proof.
  exact (proj2 (@peer_is_resolved_by_connectionMade _ _ _ _ _
                  [CallStringReceived ["a"]; CallConnectionLost ConnectionDone]%byte
                  (Demo.opened Demo.process false)) eq_refl).
Defined.

Lemma constructor_failure_is_not_aborted_witness :
  exists t q t',
    connectionMade
      (buildProtocol
         (Demo.demo_factory (Callable 0 (Raise (OtherException "no session"))) true)
         Demo.tcp)
    = (Raise (AttributeError "_session"), q, t)
    /\ observable t = []
    /\ _session q = Unset
    /\ isOpen q = (Raise (AttributeError "_session"), q, [])
    /\ send "z"%byte q = (Raise (AttributeError "_session"), q, [])
    /\ close q = (Raise (AttributeError "_session"), q, [])
    /\ abort q = (Raise (AttributeError "_session"), q, [])
    /\ connectionLost ConnectionLost q = (Ok tt, set_session None q, t')
    /\ observable t' = [].
Proof.
  exact (@constructor_failure_is_not_aborted _ _ _ _ _
           (Demo.demo_factory (Callable 0 (Raise (OtherException "no session"))) true)
           Demo.tcp (OtherException "no session") "z"%byte ConnectionLost eq_refl).
Defined.

Lemma connection_lifecycle_witness :
  exists t,
    run [CallConnectionMade; CallStringReceived ["a"; "b"];
         CallStringReceived ["c"]; CallConnectionLost ConnectionDone]%byte
        (buildProtocol
           (Demo.demo_factory (Callable 0 (Ok (Demo.new_session false false))) true)
           Demo.tcp)
    = ([Returned; Returned; Returned; Returned],
       set_session None
         (set_peer "tcp4:127.0.0.1:9000"
            (buildProtocol
               (Demo.demo_factory
                  (Callable 0 (Ok (Demo.new_session false false))) true)
               Demo.tcp)), t)
    /\ observable t
       = [OnOpen; OnMessage "a"; OnMessage "b"; OnMessage "c"; OnClose true]%byte.
Proof.
  assert (Hc : call0 (_factory
                 (Demo.demo_factory
                    (Callable 0 (Ok (Demo.new_session false false))) true))
               = Ok (Demo.new_session false false)) by reflexivity.
  assert (Ho : onOpen (Demo.new_session false false)
               = (Demo.new_session false false, None)) by reflexivity.
  assert (Hok : Forall (fun payload =>
                          snd (unserialize
                                 (_serializer
                                    (Demo.demo_factory
                                       (Callable 0 (Ok (Demo.new_session false false)))
                                       true)) payload) = None)
                  [["a"; "b"]; ["c"]]%byte) by (repeat constructor).
  assert (D : deliver (Demo.new_session false false)
                (decoded (_serializer
                            (Demo.demo_factory
                               (Callable 0 (Ok (Demo.new_session false false))) true))
                   [["a"; "b"]; ["c"]]%byte)
              = ({| Demo.handled := ["a"; "b"; "c"]%byte; Demo.closed_with := None;
                    Demo.open_fails := false; Demo.close_fails := false |},
                 ["a"; "b"; "c"]%byte, None)) by reflexivity.
  exact (@connection_lifecycle _ _ _ _ _ _ Demo.tcp _ _ _ _ _ ConnectionDone
           Hc Ho Hok D).
Defined.

Lemma sends_are_written_in_order_witness :
  exists t,
    run [CallSend "h"; CallSend "i"]%byte (Demo.opened Demo.tcp true)
    = ([Returned; Returned], Demo.opened Demo.tcp true, t)
    /\ observable t
       = [TransportWrite [x00; x00; x00; x01; "h"];
          TransportWrite [x00; x00; x00; x01; "i"]]%byte
    /\ written t = [x00; x00; x00; x01; "h"; x00; x00; x00; x01; "i"]%byte.
Proof.
  assert (Hs : Forall (sendable (_serializer (factory (Demo.opened Demo.tcp true))))
                 ["h"; "i"]%byte)
    by (repeat first [apply Forall_nil | apply Forall_cons; [reflexivity|]]).
  exact (@sends_are_written_in_order _ _ _ _ _ ["h"; "i"]%byte
           (Demo.opened Demo.tcp true) (Demo.new_session false false) eq_refl Hs).
Defined.

Lemma sent_messages_arrive_witness :
  exists t,
    run (map CallDataReceived [[x00; x00; x00; x01; "h"; x00]; [x00; x00; x01; "i"]]%byte)
        (Demo.opened Demo.process true)
    = ([Returned; Returned],
       set_session
         (Some {| Demo.handled := ["h"; "i"]%byte; Demo.closed_with := None;
                  Demo.open_fails := false; Demo.close_fails := false |})
         (Demo.opened Demo.process true), t)
    /\ observable t = [OnMessage "h"; OnMessage "i"]%byte.
Proof.
  assert (Hs : Forall (sendable (_serializer (factory (Demo.opened Demo.tcp false))))
                 ["h"; "i"]%byte)
    by (repeat first [apply Forall_nil | apply Forall_cons; [reflexivity|]]).
  assert (Hrt : Forall (fun m =>
                          unserialize (_serializer (factory (Demo.opened Demo.process true)))
                            (payload_of (_serializer (factory (Demo.opened Demo.tcp false))) m)
                          = ([m], None)) ["h"; "i"]%byte)
    by (repeat first [apply Forall_nil | apply Forall_cons; [reflexivity|]]).
  assert (D : deliver (Demo.new_session false false) ["h"; "i"]%byte
              = ({| Demo.handled := ["h"; "i"]%byte; Demo.closed_with := None;
                    Demo.open_fails := false; Demo.close_fails := false |},
                 ["h"; "i"]%byte, None)) by reflexivity.
  assert (Hreads : concat [[x00; x00; x00; x01; "h"; x00]; [x00; x00; x01; "i"]]%byte
                   = written (snd (run (map CallSend ["h"; "i"]%byte)
                                       (Demo.opened Demo.tcp false))))
    by reflexivity.
  exact (@sent_messages_arrive _ _ _ _ _ ["h"; "i"]%byte
           (Demo.opened Demo.tcp false) (Demo.opened Demo.process true)
           (Demo.new_session false false) (Demo.new_session false false) _ _ _
           eq_refl Hs Hrt eq_refl eq_refl D Hreads).
Defined.
